(** * vim.wasm main-thread front end (src/wasm/main.ts)

    A shallow embedding of the main-thread script that connects the Vim
    worker to the page: the worker transport and its shared wake cell
    ([VimWorker]), the debounced resize forwarding ([ResizeHandler]), the
    keyboard filter ([InputHandler]), the batched canvas renderer
    ([ScreenCanvas]) and the message dispatch ([VimWasm]).

    The script is event driven.  Its objects are created once and are
    reachable from each other, so the embedding keeps all of them in one
    [World] record; every method is a function on [World].  The browser is
    the environment: it owns the clock, the timer table, the list of
    animation-frame callbacks, the listener registrations, the layout of
    the canvas element and the canvas bitmap, and it drives the script by
    the events of [Event].

    JavaScript numbers are binary64 values.  In the world model they are
    exact rationals ([Q]) and [Math.floor] is [Qfloor]: every expression of
    the source is kept operation by operation, as the source writes it;
    what the model leaves out is the rounding of each operation, the
    values that are not finite and the limits of an implementation (memory,
    the range of an index).  The properties state results in the
    source's own expressions.  Where a property hinges on the rounding,
    the expressions are evaluated on binary64 values ([Binary64], on the
    primitive floats of the Standard Library).

    The text of a text run is a list of UTF-16 code units; the other
    strings (names of colours, fonts and keys, messages) are [string]s.
    Calls to [debug] (declared outside this file, console logging only)
    are left out. *)

From Stdlib Require Import ZArith QArith Qround List String Ascii Bool Lia.
From Stdlib Require Import DecimalString Floats.
From Stdlib Require Uint63.
From stdpp Require Import base list.
Import ListNotations.

Local Open Scope string_scope.
Local Open Scope list_scope.
Local Open Scope Z_scope.

(** ** Numbers and strings *)

Definition number := Q.
Bind Scope Q_scope with number.

Definition Math_floor (q : number) : Z := Qfloor q.

(** The value an [Int32Array] element takes when [v] is stored. *)
Definition to_int32 (v : Z) : Z := (v + 2 ^ 31) mod 2 ^ 32 - 2 ^ 31.

(** [a || 1] on numbers: zero is falsy. *)
Definition or_one (a : number) : number :=
  if Qeq_bool a 0 then 1%Q else a.

(** [n + '...'] for an integral number: its decimal digits.  That is
    what JavaScript prints for an integer below [2 ^ 53] in absolute value
    ([safe_integer]); beyond, it prints the shortest digits that identify
    the binary64 value, and an exponent from [10 ^ 21] on. *)
Definition string_of_Z (z : Z) : string :=
  NilZero.string_of_int (Z.to_int z).

Definition safe_integer (z : Z) : Prop := Z.abs z < 2 ^ 53.

(** A UTF-16 code unit, [0 <= u < 65536]; a JavaScript string is a
    sequence of code units. *)
Definition code_unit := Z.

(** The code units of [undefined] printed as a string. *)
Definition undefined_units : list code_unit :=
  [117; 110; 100; 101; 102; 105; 110; 101; 100].

(** A field that is declared but not assigned reads [undefined]; string
    concatenation prints it as such. *)
Definition js_string (o : option string) : string :=
  match o with
  | Some s => s
  | None => "undefined"
  end.

(** ** Messages (declared outside main.ts; shapes as used here) *)

(** A draw event is a method name of [DrawEventHandler] with its
    positional arguments. *)
Inductive DrawEventMessage :=
| DSetColorFG (name : string)
| DSetColorBG (name : string)
| DSetColorSP (name : string)
| DSetFont (name : string) (size : number)
| DDrawRect (x y w h : number) (color : string) (filled : bool)
| DDrawText (text : list code_unit) (ch lh cw x y : number)
            (bold underline undercurl strike : bool)
| DInvertRect (x y w h : number)
| DImageScroll (x sy dy w h : number).

Inductive MessageFromWorker :=
| MDraw (event : DrawEventMessage)
| MStarted
| MExit
| MFatal (message : string)
| MOther (kind : string).   (* any kind outside the declared union *)

(** The [start] message also carries [buffer], the handle of the shared
    array; there is one such array, so the handle is left implicit. *)
Inductive MessageFromMain :=
| MStart (canvasDomHeight canvasDomWidth : number) (debug : bool)
| MResize (height width : number)
| MKey (code : string) (keyCode : Z) (key : string)
       (ctrl shift alt meta : bool).

Record KeyboardEvent := mkKeyboardEvent {
  ev_key : string;
  ev_code : string;
  ev_keyCode : Z;
  ev_ctrlKey : bool;
  ev_shiftKey : bool;
  ev_altKey : bool;
  ev_metaKey : bool
}.

(** ** The canvas *)

(** One RGBA pixel of the bitmap, each channel a byte. *)
Record Pixel := mkPixel { px_r : Z; px_g : Z; px_b : Z; px_a : Z }.

Definition byte_ok (v : Z) : Prop := 0 <= v <= 255.

Definition pixel_ok (p : Pixel) : Prop :=
  byte_ok (px_r p) /\ byte_ok (px_g p) /\ byte_ok (px_b p) /\ byte_ok (px_a p).

(** The bitmap in device pixels; [None] outside of it. *)
Definition Bitmap := Z -> Z -> option Pixel.

Inductive PathSeg :=
| SegRect (x y w h : Z)
| SegMoveTo (x y : Z)
| SegLineTo (x y : Z).

(** What reaches the surface.  Each entry carries the style it was drawn
    with. *)
Inductive PaintOp :=
| PFillRect (style : option string) (x y w h : Z)
| PFillText (font : option string) (baseline : option string)
            (style : option string) (glyph : list code_unit) (x y : Z)
| PStroke (style : option string) (lineWidth : option number)
          (dash : list Z) (path : list PathSeg)
| PPutImageData (data : list Z) (dx dy : Z) (w h : nat)
| PDrawImage (sx sy sw sh dx dy dw dh : Z).

(** [CanvasRenderingContext2D], with the dimensions of its canvas.
    Properties hold what the script last assigned ([None] before the first
    assignment, or when [undefined] was assigned).  [painted] is the history
    of paint operations, oldest first.  How fills, strokes, glyphs and image
    copies turn into pixels belongs to the browser: [raster] stands for
    it. *)
Record Context2D := mkContext2D {
  fillStyle : option string;
  strokeStyle : option string;
  lineWidth : option number;
  lineDash : list Z;
  font : option string;
  textBaseline : option string;
  path : list PathSeg;
  painted : list PaintOp;
  bitmap : Bitmap;
  raster : PaintOp -> Bitmap -> Bitmap;
  canvas_width : Z;                 (* canvas.width *)
  canvas_height : Z                 (* canvas.height *)
}.

(** A canvas call returns its value or raises a [DOMException], given by
    its name. *)
Inductive Result (A : Type) :=
| Returns (a : A)
| Raises (name : string).

Arguments Returns {A} a.
Arguments Raises {A} name.

(** ** The browser side *)

Inductive Listener :=
| OnWindowResize
| OnInputKeydown
| OnInputBlur
| OnInputFocus
| OnCanvasClick.

Definition Listener_eqb (a b : Listener) : bool :=
  match a, b with
  | OnWindowResize, OnWindowResize
  | OnInputKeydown, OnInputKeydown
  | OnInputBlur, OnInputBlur
  | OnInputFocus, OnInputFocus
  | OnCanvasClick, OnCanvasClick => true
  | _, _ => false
  end.

(** Calls into the browser that the page or the worker can observe. *)
Inductive HostCall :=
| Alert (msg : string)
| PostMessage (msg : MessageFromMain)
| AtomicsStore (index value : Z)
| PreventDefault
| StopPropagation
| Focus
| Uncaught (msg : string).   (* an exception that left an event handler *)

Record DOMRect := mkDOMRect { rect_height : number; rect_width : number }.

(** [fontSize] holds the string [size + 'px']; the number is kept and the
    unit is implied. *)
Record InputStyle := mkInputStyle {
  fontFamily : option string;
  fontSize_px : option number
}.

Record Host := mkHost {
  now : Z;                          (* milliseconds *)
  devicePixelRatio : number;
  windowProps : list string;        (* names for which [prop in window] *)
  timers : list (Z * Z);            (* (token, due time), in arming order *)
  nextTimerToken : Z;
  rafCallbacks : nat;               (* registered onAnimationFrame callbacks *)
  listeners : list Listener;
  canvasRect : DOMRect;             (* canvas.getBoundingClientRect() *)
  inputStyle : InputStyle;          (* style of #vim-input *)
  trace : list (Z * HostCall)       (* time-stamped, oldest first *)
}.

(** ** The script's objects *)

(** [sharedBuffer] is an [Int32Array] of length one over shared memory;
    the field is its element at index 0. *)
Record VimWorker := mkVimWorker { sharedBuffer : Z }.

Record ResizeHandler := mkResizeHandler {
  elemHeight : number;
  elemWidth : number;
  bounceTimerToken : option Z
}.

Record ScreenCanvas := mkScreenCanvas {
  fgColor : option string;
  bgColor : option string;
  spColor : option string;
  fontName : option string;
  queue : list DrawEventMessage;
  rafScheduled : bool
}.

Record World := mkWorld {
  host : Host;
  ctx : Context2D;
  worker : VimWorker;
  resizer : ResizeHandler;
  screen : ScreenCanvas
}.

(** A call either returns or throws; what it did to the world before
    throwing stays done. *)
Inductive Completion :=
| Normal (w : World)
| Throw (msg : string) (w : World).

Definition world_of (c : Completion) : World :=
  match c with
  | Normal w => w
  | Throw _ w => w
  end.

(** Whether a call returned. *)
Definition returns (c : Completion) : bool :=
  match c with
  | Normal _ => true
  | Throw _ _ => false
  end.

(** *** Field updates *)

Definition set_now (v : Z) (h : Host) : Host :=
  mkHost v (devicePixelRatio h) (windowProps h) (timers h) (nextTimerToken h)
         (rafCallbacks h) (listeners h) (canvasRect h) (inputStyle h) (trace h).

Definition set_devicePixelRatio (v : number) (h : Host) : Host :=
  mkHost (now h) v (windowProps h) (timers h) (nextTimerToken h)
         (rafCallbacks h) (listeners h) (canvasRect h) (inputStyle h) (trace h).

Definition set_timers (v : list (Z * Z)) (h : Host) : Host :=
  mkHost (now h) (devicePixelRatio h) (windowProps h) v (nextTimerToken h)
         (rafCallbacks h) (listeners h) (canvasRect h) (inputStyle h) (trace h).

Definition set_nextTimerToken (v : Z) (h : Host) : Host :=
  mkHost (now h) (devicePixelRatio h) (windowProps h) (timers h) v
         (rafCallbacks h) (listeners h) (canvasRect h) (inputStyle h) (trace h).

Definition set_rafCallbacks (v : nat) (h : Host) : Host :=
  mkHost (now h) (devicePixelRatio h) (windowProps h) (timers h)
         (nextTimerToken h) v (listeners h) (canvasRect h) (inputStyle h)
         (trace h).

Definition set_listeners (v : list Listener) (h : Host) : Host :=
  mkHost (now h) (devicePixelRatio h) (windowProps h) (timers h)
         (nextTimerToken h) (rafCallbacks h) v (canvasRect h) (inputStyle h)
         (trace h).

Definition set_canvasRect (v : DOMRect) (h : Host) : Host :=
  mkHost (now h) (devicePixelRatio h) (windowProps h) (timers h)
         (nextTimerToken h) (rafCallbacks h) (listeners h) v (inputStyle h)
         (trace h).

Definition set_inputStyle (v : InputStyle) (h : Host) : Host :=
  mkHost (now h) (devicePixelRatio h) (windowProps h) (timers h)
         (nextTimerToken h) (rafCallbacks h) (listeners h) (canvasRect h) v
         (trace h).

Definition set_trace (v : list (Z * HostCall)) (h : Host) : Host :=
  mkHost (now h) (devicePixelRatio h) (windowProps h) (timers h)
         (nextTimerToken h) (rafCallbacks h) (listeners h) (canvasRect h)
         (inputStyle h) v.

Definition set_fillStyle (v : option string) (c : Context2D) : Context2D :=
  mkContext2D v (strokeStyle c) (lineWidth c) (lineDash c) (font c)
              (textBaseline c) (path c) (painted c) (bitmap c) (raster c)
              (canvas_width c) (canvas_height c).

Definition set_strokeStyle (v : option string) (c : Context2D) : Context2D :=
  mkContext2D (fillStyle c) v (lineWidth c) (lineDash c) (font c)
              (textBaseline c) (path c) (painted c) (bitmap c) (raster c)
              (canvas_width c) (canvas_height c).

Definition set_lineWidth (v : option number) (c : Context2D) : Context2D :=
  mkContext2D (fillStyle c) (strokeStyle c) v (lineDash c) (font c)
              (textBaseline c) (path c) (painted c) (bitmap c) (raster c)
              (canvas_width c) (canvas_height c).

Definition set_lineDash (v : list Z) (c : Context2D) : Context2D :=
  mkContext2D (fillStyle c) (strokeStyle c) (lineWidth c) v (font c)
              (textBaseline c) (path c) (painted c) (bitmap c) (raster c)
              (canvas_width c) (canvas_height c).

Definition set_font (v : option string) (c : Context2D) : Context2D :=
  mkContext2D (fillStyle c) (strokeStyle c) (lineWidth c) (lineDash c) v
              (textBaseline c) (path c) (painted c) (bitmap c) (raster c)
              (canvas_width c) (canvas_height c).

Definition set_textBaseline (v : option string) (c : Context2D) : Context2D :=
  mkContext2D (fillStyle c) (strokeStyle c) (lineWidth c) (lineDash c)
              (font c) v (path c) (painted c) (bitmap c) (raster c)
              (canvas_width c) (canvas_height c).

Definition set_path (v : list PathSeg) (c : Context2D) : Context2D :=
  mkContext2D (fillStyle c) (strokeStyle c) (lineWidth c) (lineDash c)
              (font c) (textBaseline c) v (painted c) (bitmap c) (raster c)
              (canvas_width c) (canvas_height c).

Definition set_surface (p : list PaintOp) (b : Bitmap) (c : Context2D)
  : Context2D :=
  mkContext2D (fillStyle c) (strokeStyle c) (lineWidth c) (lineDash c)
              (font c) (textBaseline c) (path c) p b (raster c)
              (canvas_width c) (canvas_height c).

Definition set_bounceTimerToken (v : option Z) (r : ResizeHandler)
  : ResizeHandler :=
  mkResizeHandler (elemHeight r) (elemWidth r) v.

Definition set_elemWidth (v : number) (r : ResizeHandler) : ResizeHandler :=
  mkResizeHandler (elemHeight r) v (bounceTimerToken r).

Definition set_elemHeight (v : number) (r : ResizeHandler) : ResizeHandler :=
  mkResizeHandler v (elemWidth r) (bounceTimerToken r).

Definition set_fgColor (v : option string) (s : ScreenCanvas) : ScreenCanvas :=
  mkScreenCanvas v (bgColor s) (spColor s) (fontName s) (queue s)
                 (rafScheduled s).

Definition set_bgColor (v : option string) (s : ScreenCanvas) : ScreenCanvas :=
  mkScreenCanvas (fgColor s) v (spColor s) (fontName s) (queue s)
                 (rafScheduled s).

Definition set_spColor (v : option string) (s : ScreenCanvas) : ScreenCanvas :=
  mkScreenCanvas (fgColor s) (bgColor s) v (fontName s) (queue s)
                 (rafScheduled s).

Definition set_fontName (v : option string) (s : ScreenCanvas) : ScreenCanvas :=
  mkScreenCanvas (fgColor s) (bgColor s) (spColor s) v (queue s)
                 (rafScheduled s).

Definition set_queue (v : list DrawEventMessage) (s : ScreenCanvas)
  : ScreenCanvas :=
  mkScreenCanvas (fgColor s) (bgColor s) (spColor s) (fontName s) v
                 (rafScheduled s).

Definition set_rafScheduled (v : bool) (s : ScreenCanvas) : ScreenCanvas :=
  mkScreenCanvas (fgColor s) (bgColor s) (spColor s) (fontName s) (queue s) v.

Definition with_host (f : Host -> Host) (w : World) : World :=
  mkWorld (f (host w)) (ctx w) (worker w) (resizer w) (screen w).

Definition with_ctx (f : Context2D -> Context2D) (w : World) : World :=
  mkWorld (host w) (f (ctx w)) (worker w) (resizer w) (screen w).

Definition with_worker (f : VimWorker -> VimWorker) (w : World) : World :=
  mkWorld (host w) (ctx w) (f (worker w)) (resizer w) (screen w).

Definition with_resizer (f : ResizeHandler -> ResizeHandler) (w : World)
  : World :=
  mkWorld (host w) (ctx w) (worker w) (f (resizer w)) (screen w).

Definition with_screen (f : ScreenCanvas -> ScreenCanvas) (w : World) : World :=
  mkWorld (host w) (ctx w) (worker w) (resizer w) (f (screen w)).

(** ** Browser services *)

(** Record a host call at the current time. *)
Definition call (c : HostCall) (w : World) : World :=
  with_host (fun h => set_trace (trace h ++ [(now h, c)]) h) w.

Definition listening (l : Listener) (w : World) : bool :=
  existsb (Listener_eqb l) (listeners (host w)).

(** [addEventListener] with a listener that is already registered for the
    same event does nothing. *)
Definition addEventListener (l : Listener) (w : World) : World :=
  if listening l w then w
  else with_host (fun h => set_listeners (listeners h ++ [l]) h) w.

Definition removeEventListener (l : Listener) (w : World) : World :=
  with_host
    (fun h => set_listeners
                (List.filter (fun l' => negb (Listener_eqb l l')) (listeners h))
                h) w.

(** [window.setTimeout(callback, delay)]: the new token and the world with
    the timer armed.  Every timer of this script runs the same callback,
    the closure created in [ResizeHandler.onResize]. *)
Definition setTimeout (delay : Z) (w : World) : Z * World :=
  let h := host w in
  let tok := nextTimerToken h in
  (tok,
   with_host (fun h => set_nextTimerToken (tok + 1)
                         (set_timers (timers h ++ [(tok, now h + delay)]) h))
             w).

Definition clearTimeout (tok : Z) (w : World) : World :=
  with_host
    (fun h => set_timers
                (List.filter (fun t => negb (fst t =? tok)) (timers h)) h) w.

Definition requestAnimationFrame (w : World) : World :=
  with_host (fun h => set_rafCallbacks (S (rafCallbacks h)) h) w.

Definition dpr (w : World) : number := or_one (devicePixelRatio (host w)).

(** ** Canvas 2D context operations *)

Record ImageData := mkImageData {
  img_width : nat;
  img_height : nat;
  img_data : list Z        (* Uint8ClampedArray, RGBA, row-major *)
}.

Definition transparent_black : Pixel := mkPixel 0 0 0 0.

Definition read_pixel (b : Bitmap) (x y : Z) : Pixel :=
  default transparent_black (b x y).

Definition pixel_bytes (p : Pixel) : list Z :=
  [px_r p; px_g p; px_b p; px_a p].

Definition byte_at (data : list Z) (i : nat) : Z := default 0 (data !! i).

(** The pixel at column [col], row [row] of an image. *)
Definition pixel_at (img : ImageData) (col row : nat) : Pixel :=
  let i := (4 * (row * img_width img + col))%nat in
  mkPixel (byte_at (img_data img) i) (byte_at (img_data img) (i + 1))
          (byte_at (img_data img) (i + 2)) (byte_at (img_data img) (i + 3)).

(** A store into a [Uint8ClampedArray] clamps to a byte. *)
Definition clamp8 (v : Z) : Z := Z.max 0 (Z.min 255 v).

Module Context2D.

(** A paint operation is appended to the history and rasterised by the
    browser. *)
Definition paint (op : PaintOp) (c : Context2D) : Context2D :=
  set_surface (painted c ++ [op]) (raster c op (bitmap c)) c.

Definition fillRect (x y w h : Z) (c : Context2D) : Context2D :=
  paint (PFillRect (fillStyle c) x y w h) c.

(** [rect] only adds a closed sub-path to the current path. *)
Definition rect (x y w h : Z) (c : Context2D) : Context2D :=
  set_path (path c ++ [SegRect x y w h]) c.

Definition fillText (text : list code_unit) (x y : Z) (c : Context2D)
  : Context2D :=
  paint (PFillText (font c) (textBaseline c) (fillStyle c) text x y) c.

(** [setLineDash(segments)]: a list with a negative value is ignored; a
    list of odd length is taken twice. *)
Definition setLineDash (segments : list Z) (c : Context2D) : Context2D :=
  if forallb (Z.leb 0) segments then
    set_lineDash (if Nat.odd (length segments) then segments ++ segments
                  else segments) c
  else c.

Definition beginPath (c : Context2D) : Context2D := set_path [] c.

Definition moveTo (x y : Z) (c : Context2D) : Context2D :=
  set_path (path c ++ [SegMoveTo x y]) c.

Definition lineTo (x y : Z) (c : Context2D) : Context2D :=
  set_path (path c ++ [SegLineTo x y]) c.

(** [stroke] paints the current path and keeps it. *)
Definition stroke (c : Context2D) : Context2D :=
  paint (PStroke (strokeStyle c) (lineWidth c) (lineDash c) (path c)) c.

(** [drawImage(canvas, sx, sy, sw, sh, dx, dy, dw, dh)] with the canvas
    itself as the source: a canvas with a dimension of zero is not a usable
    image. *)
Definition drawImage (sx sy sw sh dx dy dw dh : Z) (c : Context2D)
  : Result Context2D :=
  if (canvas_width c =? 0) || (canvas_height c =? 0)
  then Raises "InvalidStateError"
  else Returns (paint (PDrawImage sx sy sw sh dx dy dw dh) c).

(** The pixels of a source rectangle: a negative extent flips the
    rectangle; pixels outside the bitmap read as transparent black. *)
Definition readRect (sx sy sw sh : Z) (c : Context2D) : ImageData :=
  let x0 := if sw <? 0 then sx + sw else sx in
  let y0 := if sh <? 0 then sy + sh else sy in
  let W := Z.abs_nat sw in
  let H := Z.abs_nat sh in
  mkImageData W H
    (flat_map
       (fun row =>
          flat_map
            (fun col =>
               pixel_bytes
                 (read_pixel (bitmap c) (x0 + Z.of_nat col)
                             (y0 + Z.of_nat row)))
            (seq 0 W))
       (seq 0 H)).

(** [getImageData(sx, sy, sw, sh)]: an extent of zero is an error. *)
Definition getImageData (sx sy sw sh : Z) (c : Context2D) : Result ImageData :=
  if (sw =? 0) || (sh =? 0) then Raises "IndexSizeError"
  else Returns (readRect sx sy sw sh c).

(** [putImageData(img, dx, dy)]: every pixel of the image replaces the
    bitmap pixel at its place; places outside the bitmap are skipped. *)
Definition putImageData (img : ImageData) (dx dy : Z) (c : Context2D)
  : Context2D :=
  let old := bitmap c in
  set_surface
    (painted c ++
       [PPutImageData (img_data img) dx dy (img_width img) (img_height img)])
    (fun cx cy =>
       match old cx cy with
       | None => None
       | Some p =>
           let col := cx - dx in
           let row := cy - dy in
           if (0 <=? col) && (col <? Z.of_nat (img_width img))
              && (0 <=? row) && (row <? Z.of_nat (img_height img))
           then Some (pixel_at img (Z.to_nat col) (Z.to_nat row))
           else Some p
       end)
    c.

End Context2D.

(** ** fatal and checkCompat *)

Definition fatal (msg : string) (w : World) : Completion :=
  Throw msg (call (Alert msg) w).

Definition checkCompat (prop : string) (w : World) : Completion :=
  if existsb (String.eqb prop) (windowProps (host w)) then Normal w
  else fatal ("window." ++ prop ++ " is not supported by this browser")%string w.

(** ** class VimWorker *)

Module VimWorker.

Definition sendMessage (msg : MessageFromMain) (w : World) : World :=
  call (PostMessage msg) w.

(** [Atomics.store(this.sharedBuffer, 0, 1)] *)
Definition awakeWorkerThread (w : World) : World :=
  call (AtomicsStore 0 1) (with_worker (fun _ => mkVimWorker (to_int32 1)) w).

End VimWorker.

(** ** class ResizeHandler *)

Module ResizeHandler.

Definition onVimInit (w : World) : World :=
  addEventListener OnWindowResize w.

Definition onVimExit (w : World) : World :=
  removeEventListener OnWindowResize w.

Definition doResize (w : World) : World :=
  let rect := canvasRect (host w) in
  let w := with_resizer (set_elemWidth (rect_width rect)) w in
  let w := with_resizer (set_elemHeight (rect_height rect)) w in
  VimWorker.sendMessage (MResize (rect_height rect) (rect_width rect)) w.

(** The closure handed to [setTimeout] in [onResize]. *)
Definition bounceCallback (w : World) : World :=
  let w := with_resizer (set_bounceTimerToken None) w in
  doResize w.

Definition onResize (w : World) : World :=
  let w :=
    match bounceTimerToken (resizer w) with
    | Some tok => clearTimeout tok w
    | None => w
    end in
  let '(tok, w) := setTimeout 1000 w in
  with_resizer (set_bounceTimerToken (Some tok)) w.

End ResizeHandler.

(** ** class InputHandler *)

Module InputHandler.

Definition setFont (name : string) (size : number) (w : World) : World :=
  with_host (set_inputStyle (mkInputStyle (Some name) (Some size))) w.

Definition focus (w : World) : World := call Focus w.

Definition onVimInit (w : World) : World :=
  let w := addEventListener OnInputKeydown w in
  let w := addEventListener OnInputBlur w in
  addEventListener OnInputFocus w.

Definition onVimExit (w : World) : World :=
  let w := removeEventListener OnInputKeydown w in
  let w := removeEventListener OnInputBlur w in
  removeEventListener OnInputFocus w.

Definition onKeydown (event : KeyboardEvent) (w : World) : World :=
  let w := call PreventDefault w in
  let w := call StopPropagation w in
  let key := ev_key event in
  let ctrl := ev_ctrlKey event in
  let shift := ev_shiftKey event in
  let alt := ev_altKey event in
  let meta := ev_metaKey event in
  if (1 <? String.length key)%nat
     && (String.eqb key "Unidentified"
         || (ctrl && String.eqb key "Control")
         || (shift && String.eqb key "Shift")
         || (alt && String.eqb key "Alt")
         || (meta && String.eqb key "Meta"))
  then w
  else
    let w := VimWorker.awakeWorkerThread w in
    VimWorker.sendMessage
      (MKey (ev_code event) (ev_keyCode event) key ctrl shift alt meta) w.

Definition onFocus (w : World) : World := w.

Definition onBlur (w : World) : World := call PreventDefault w.

End InputHandler.

(** ** class ScreenCanvas *)

Module ScreenCanvas.

Definition onVimInit (w : World) : World :=
  let w := ResizeHandler.onVimInit w in
  InputHandler.onVimInit w.

Definition onVimExit (w : World) : World :=
  let w := ResizeHandler.onVimExit w in
  InputHandler.onVimExit w.

Definition enqueue (msg : DrawEventMessage) (w : World) : World :=
  let w :=
    if negb (rafScheduled (screen w)) then
      let w := requestAnimationFrame w in
      with_screen (set_rafScheduled true) w
    else w in
  with_screen (fun s => set_queue (queue s ++ [msg]) s) w.

Definition setColorFG (name : string) (w : World) : World :=
  with_screen (set_fgColor (Some name)) w.

Definition setColorBG (name : string) (w : World) : World :=
  with_screen (set_bgColor (Some name)) w.

Definition setColorSP (name : string) (w : World) : World :=
  with_screen (set_spColor (Some name)) w.

Definition setFont (name : string) (size : number) (w : World) : World :=
  let w := with_screen (set_fontName (Some name)) w in
  InputHandler.setFont name size w.

Definition drawRect (x y w h : number) (color : string) (filled : bool)
           (wd : World) : World :=
  let dpr := dpr wd in
  let x := Math_floor (x * dpr) in
  let y := Math_floor (y * dpr) in
  let w := Math_floor (w * dpr) in
  let h := Math_floor (h * dpr) in
  let wd := with_ctx (set_fillStyle (Some color)) wd in
  if filled then with_ctx (Context2D.fillRect x y w h) wd
  else with_ctx (Context2D.rect x y w h) wd.

(** [text[i]]: the string of the one code unit at index [i]; past the
    end it is [undefined]. *)
Definition char_at (text : list code_unit) (i : nat) : list code_unit :=
  match text !! i with
  | Some u => [u]
  | None => undefined_units
  end.

(** The glyph loop of [drawText]: one [fillText] per code unit. *)
Definition fillGlyphs (text : list code_unit) (x cw : number) (yi : Z)
           (c : Context2D) : Context2D :=
  fold_left
    (fun c i =>
       Context2D.fillText (char_at text i)
         (Math_floor (x + cw * inject_Z (Z.of_nat i))) yi c)
    (seq 0 (length text)) c.

Definition drawText (text : list code_unit) (ch lh cw x y : number)
           (bold underline undercurl strike : bool) (wd : World) : World :=
  let dpr := dpr wd in
  let ch := (ch * dpr)%Q in
  let lh := (lh * dpr)%Q in
  let cw := (cw * dpr)%Q in
  let x := (x * dpr)%Q in
  let y := (y * dpr)%Q in
  let font :=
    (string_of_Z (Math_floor ch) ++ "px " ++ js_string (fontName (screen wd)))
      %string in
  let font := if bold then ("bold " ++ font)%string else font in
  let fg := fgColor (screen wd) in
  let sp := spColor (screen wd) in
  let len := inject_Z (Z.of_nat (length text)) in
  let wd := with_ctx (set_font (Some font)) wd in
  let wd := with_ctx (set_textBaseline (Some "ideographic")) wd in
  let wd := with_ctx (set_fillStyle fg) wd in
  let yi := Math_floor (y + lh) in
  let wd := with_ctx (fillGlyphs text x cw yi) wd in
  if underline then
    let wd := with_ctx (set_strokeStyle fg) wd in
    let wd := with_ctx (set_lineWidth (Some (1 * dpr)%Q)) wd in
    let wd := with_ctx (Context2D.setLineDash []) wd in
    let wd := with_ctx Context2D.beginPath wd in
    let underlineY := Math_floor (y + lh - 3 * dpr) in
    let wd := with_ctx (Context2D.moveTo (Math_floor x) underlineY) wd in
    let wd :=
      with_ctx (Context2D.lineTo (Math_floor (x + cw * len)) underlineY) wd in
    with_ctx Context2D.stroke wd
  else if undercurl then
    let wd := with_ctx (set_strokeStyle sp) wd in
    let wd := with_ctx (set_lineWidth (Some (1 * dpr)%Q)) wd in
    let curlWidth := Math_floor (cw / 3) in
    let wd := with_ctx (Context2D.setLineDash [curlWidth; curlWidth]) wd in
    let wd := with_ctx Context2D.beginPath wd in
    let undercurlY := Math_floor (y + lh - 3 * dpr) in
    let wd := with_ctx (Context2D.moveTo (Math_floor x) undercurlY) wd in
    let wd :=
      with_ctx (Context2D.lineTo (Math_floor (x + cw * len)) undercurlY) wd in
    with_ctx Context2D.stroke wd
  else if strike then
    let wd := with_ctx (set_strokeStyle fg) wd in
    let wd := with_ctx (set_lineWidth (Some (1 * dpr)%Q)) wd in
    let wd := with_ctx Context2D.beginPath wd in
    let strikeY := Math_floor (y + lh / 2) in
    let wd := with_ctx (Context2D.moveTo (Math_floor x) strikeY) wd in
    let wd :=
      with_ctx (Context2D.lineTo (Math_floor (x + cw * len)) strikeY) wd in
    with_ctx Context2D.stroke wd
  else wd.

(** [data[i] = 255 - data[i]].  Past the end the read is [undefined] and
    the store is dropped. *)
Definition complementAt (i : nat) (data : list Z) : list Z :=
  match data !! i with
  | Some v => <[i := clamp8 (255 - v)]> data
  | None => data
  end.

(** The loop of [invertRect] from index [i] on, [len] being
    [data.length] as read before the loop.  Each turn advances [i] by
    four, so [len] turns are always enough. *)
Fixpoint invertLoop (fuel : nat) (len : nat) (i : nat) (data : list Z)
  : list Z :=
  match fuel with
  | O => data
  | S fuel' =>
      if (i <? len)%nat then
        let data := complementAt i data in
        let data := complementAt (i + 1) data in
        let data := complementAt (i + 2) data in
        (* ++i skips alpha, then the loop header's ++i *)
        invertLoop fuel' len (i + 3 + 1) data
      else data
  end.

Definition invertData (data : list Z) : list Z :=
  let len := length data in
  invertLoop len len 0 data.

Definition invertRect (x y w h : number) (wd : World) : Completion :=
  let dpr := dpr wd in
  let x := Math_floor (x * dpr) in
  let y := Math_floor (y * dpr) in
  let w := Math_floor (w * dpr) in
  let h := Math_floor (h * dpr) in
  match Context2D.getImageData x y w h (ctx wd) with
  | Raises e => Throw e wd
  | Returns img =>
      let img :=
        mkImageData (img_width img) (img_height img)
                    (invertData (img_data img)) in
      Normal (with_ctx (Context2D.putImageData img x y) wd)
  end.

Definition imageScroll (x sy dy w h : number) (wd : World) : Completion :=
  let dpr := dpr wd in
  let x := Math_floor (x * dpr) in
  let sy := Math_floor (sy * dpr) in
  let dy := Math_floor (dy * dpr) in
  let w := Math_floor (w * dpr) in
  let h := Math_floor (h * dpr) in
  match Context2D.drawImage x sy w h x dy w h (ctx wd) with
  | Raises e => Throw e wd
  | Returns c => Normal (with_ctx (fun _ => c) wd)
  end.

Definition onClick (w : World) : World := InputHandler.focus w.

(** [this[method].apply(this, args)] *)
Definition apply (msg : DrawEventMessage) (w : World) : Completion :=
  match msg with
  | DSetColorFG name => Normal (setColorFG name w)
  | DSetColorBG name => Normal (setColorBG name w)
  | DSetColorSP name => Normal (setColorSP name w)
  | DSetFont name size => Normal (setFont name size w)
  | DDrawRect x y wi h color filled =>
      Normal (drawRect x y wi h color filled w)
  | DDrawText text ch lh cw x y bold underline undercurl strike =>
      Normal (drawText text ch lh cw x y bold underline undercurl strike w)
  | DInvertRect x y wi h => invertRect x y wi h w
  | DImageScroll x sy dy wi h => imageScroll x sy dy wi h w
  end.

(** The loop of [onAnimationFrame] over the instructions [q].  An
    exception thrown by an instruction leaves the loop at once. *)
Fixpoint applyQueue (q : list DrawEventMessage) (w : World) : Completion :=
  match q with
  | [] => Normal w
  | msg :: q' =>
      match apply msg w with
      | Normal w => applyQueue q' w
      | Throw e w => Throw e w
      end
  end.

(** The two assignments after the loop are reached only when the loop
    ends normally: there is no [try] in the script. *)
Definition onAnimationFrame (w : World) : Completion :=
  match applyQueue (queue (screen w)) w with
  | Normal w =>
      let w := with_screen (set_queue []) w in
      Normal (with_screen (set_rafScheduled false) w)
  | Throw e w => Throw e w
  end.

End ScreenCanvas.

(** ** The arithmetic of the draw calls on binary64 values

    [drawRect] and [drawText] compute the positions they hand to the
    canvas from their arguments and the pixel ratio.  These are the same
    expressions on binary64 values: every operation rounds to the nearest
    value, ties to even. *)

Module Binary64.

(** [Math.floor].  A value that is not finite, a zero, and a value without
    fractional bits are returned as they are. *)
Definition Math_floor (f : float) : float :=
  match Prim2SF f with
  | S754_finite s m e =>
      if 0 <=? e then f
      else
        let q := Z.shiftr (Z.pos m) (- e) in
        let whole := Z.shiftl q (- e) =? Z.pos m in
        let n := if s then (if whole then q else q + 1) else q in
        let a := of_uint63 (Uint63.of_Z n) in
        if s then (- a)%float else a
  | _ => f
  end.

(** The loop index [i] as a number. *)
Definition of_nat (i : nat) : float := of_uint63 (Uint63.of_Z (Z.of_nat i)).

(** [a || 1]: zero and NaN are falsy. *)
Definition or_one (a : float) : float :=
  if is_zero a || is_nan a then 1%float else a.

(** [drawRect]: [v = Math.floor(v * dpr)] for each of [x], [y], [w],
    [h]. *)
Definition rect_coordinate (v ratio : float) : float :=
  let dpr := or_one ratio in
  Math_floor (v * dpr).

(** [drawText]: where the glyph [text[i]] is drawn, column and line. *)
Definition glyph_position (lh cw x y ratio : float) (i : nat)
  : float * float :=
  let dpr := or_one ratio in
  let lh := (lh * dpr)%float in
  let cw := (cw * dpr)%float in
  let x := (x * dpr)%float in
  let y := (y * dpr)%float in
  let yi := Math_floor (y + lh) in
  (Math_floor (x + cw * of_nat i), yi).

End Binary64.

(** ** class VimWasm *)

Module VimWasm.

(** [DEBUGGING] is a constant declared outside main.ts. *)
Definition start (DEBUGGING : bool) (w : World) : World :=
  VimWorker.sendMessage
    (MStart (elemHeight (resizer w)) (elemWidth (resizer w)) DEBUGGING) w.

Definition onMessage (msg : MessageFromWorker) (w : World) : Completion :=
  match msg with
  | MDraw event => Normal (ScreenCanvas.enqueue event w)
  | MStarted => Normal (ScreenCanvas.onVimInit w)
  | MExit => Normal (ScreenCanvas.onVimExit w)
  | MFatal message => fatal message w
  | MOther _ =>
      Throw "FATAL: Unexpected message from worker: [object Object]" w
  end.

End VimWasm.

(** ** Start-up: the constructors and the top-level statements *)

(** A canvas bitmap of the given size created with [{ alpha: false }]:
    opaque black. *)
Definition blank (W H : Z) : Bitmap :=
  fun x y =>
    if (0 <=? x) && (x <? W) && (0 <=? y) && (y <? H)
    then Some (mkPixel 0 0 0 255) else None.

(** Assigning a number to [canvas.width] or [canvas.height] (an
    [unsigned long] attribute): truncate, wrap to 32 bits, and fall back to
    the default beyond the signed range. *)
Definition canvas_dimension (q : number) (dflt : Z) : Z :=
  let t := if Qle_bool 0 q then Qfloor q else Qceiling q in
  let n := t mod 2 ^ 32 in
  if 2147483647 <? n then dflt else n.

(** The page as the script finds it: no timers, callbacks or listeners. *)
Definition page (t0 : Z) (ratio : number) (props : list string)
           (rect : DOMRect) (style : InputStyle) : Host :=
  mkHost t0 ratio props [] 1 0 [] rect style [].

(** [new VimWasm('worker.js')].  Resizing the canvas in the
    [ResizeHandler] constructor resets the bitmap and the context. *)
Definition create (h : Host) (r : PaintOp -> Bitmap -> Bitmap) : World :=
  let rect := canvasRect h in
  let ratio := or_one (devicePixelRatio h) in
  let W := canvas_dimension (rect_width rect * ratio) 300 in
  let H := canvas_dimension (rect_height rect * ratio) 150 in
  let w :=
    mkWorld h
      (mkContext2D None None None [] None None [] [] (blank W H) r W H)
      (mkVimWorker 0)
      (mkResizeHandler (rect_height rect) (rect_width rect) None)
      (mkScreenCanvas None None None None [] false) in
  let w := addEventListener OnCanvasClick w in
  InputHandler.focus w.

(** The whole script: the three capability checks, then
    [new VimWasm('worker.js')] and [vim.start()].  While the checks run no
    object exists yet; [w0] only carries the host. *)
Definition main (h : Host) (r : PaintOp -> Bitmap -> Bitmap)
           (DEBUGGING : bool) : Completion :=
  let w0 := mkWorld h (mkContext2D None None None [] None None [] []
                                   (blank 300 150) r 300 150)
                    (mkVimWorker 0)
                    (mkResizeHandler 0 0 None)
                    (mkScreenCanvas None None None None [] false) in
  match checkCompat "Worker" w0 with
  | Throw e w => Throw e w
  | Normal w =>
      match checkCompat "Atomics" w with
      | Throw e w => Throw e w
      | Normal w =>
          match checkCompat "SharedArrayBuffer" w with
          | Throw e w => Throw e w
          | Normal w => Normal (VimWasm.start DEBUGGING (create (host w) r))
          end
      end
  end.

(** What a page load provides. *)
Record Boot := mkBoot {
  boot_time : Z;
  boot_ratio : number;
  boot_props : list string;
  boot_rect : DOMRect;
  boot_style : InputStyle;
  boot_raster : PaintOp -> Bitmap -> Bitmap;
  boot_debug : bool
}.

Definition boot_host (b : Boot) : Host :=
  page (boot_time b) (boot_ratio b) (boot_props b) (boot_rect b)
       (boot_style b).

(** The world after the script ran to its end without a capability
    error. *)
Definition boot (b : Boot) : World :=
  VimWasm.start (boot_debug b) (create (boot_host b) (boot_raster b)).

(** ** The event loop *)

Inductive Event :=
| EvMessage (msg : MessageFromWorker)   (* worker.onmessage *)
| EvKeydown (event : KeyboardEvent)     (* keydown on #vim-input *)
| EvBlur                                (* blur on #vim-input *)
| EvFocus                               (* focus on #vim-input *)
| EvClick                               (* click on the canvas *)
| EvWindowResize                        (* resize on window *)
| EvLayout (rect : DOMRect)             (* the canvas box changes *)
| EvDevicePixelRatio (ratio : number)   (* the display scale changes *)
| EvSleep (ms : Z)                      (* time passes, due timers fire *)
| EvFrame                               (* a display refresh *)
| EvWorkerStore (v : Z).                (* the worker writes the shared cell *)

Fixpoint insert_by_due (t : Z * Z) (l : list (Z * Z)) : list (Z * Z) :=
  match l with
  | [] => [t]
  | u :: r => if snd t <=? snd u then t :: u :: r else u :: insert_by_due t r
  end.

(** Timers ordered by due time, ties in arming order. *)
Definition sort_by_due (l : list (Z * Z)) : list (Z * Z) :=
  fold_right insert_by_due [] l.

Definition armed (tok : Z) (w : World) : bool :=
  existsb (fun t => Z.eqb (fst t) tok) (timers (host w)).

(** Run one timer if it is still armed: it leaves the table, the clock is
    at its due time (or later), and its callback runs. *)
Definition fire (t : Z * Z) (w : World) : World :=
  if armed (fst t) w then
    let w := clearTimeout (fst t) w in
    let w := with_host (fun h => set_now (Z.max (now h) (snd t)) h) w in
    ResizeHandler.bounceCallback w
  else w.

(** Let [ms] milliseconds pass.  The callback of this script arms no
    timer, so the timers that come due are those armed at the start. *)
Definition advance (ms : Z) (w : World) : World :=
  let target := now (host w) + Z.max 0 ms in
  let due :=
    sort_by_due (List.filter (fun t => snd t <=? target) (timers (host w))) in
  let w := fold_left (fun w t => fire t w) due w in
  with_host (set_now target) w.

(** An exception that leaves a handler or a callback is reported and the
    loop goes on. *)
Definition settle (c : Completion) : World :=
  match c with
  | Normal w => w
  | Throw e w => call (Uncaught e) w
  end.

(** A display refresh runs the callbacks registered before it. *)
Definition frame (w : World) : World :=
  let n := rafCallbacks (host w) in
  let w := with_host (set_rafCallbacks 0) w in
  Nat.iter n (fun w => settle (ScreenCanvas.onAnimationFrame w)) w.

Definition step (w : World) (e : Event) : World :=
  match e with
  | EvMessage msg => settle (VimWasm.onMessage msg w)
  | EvKeydown event =>
      if listening OnInputKeydown w then InputHandler.onKeydown event w else w
  | EvBlur => if listening OnInputBlur w then InputHandler.onBlur w else w
  | EvFocus => if listening OnInputFocus w then InputHandler.onFocus w else w
  | EvClick => if listening OnCanvasClick w then ScreenCanvas.onClick w else w
  | EvWindowResize =>
      if listening OnWindowResize w then ResizeHandler.onResize w else w
  | EvLayout rect => with_host (set_canvasRect rect) w
  | EvDevicePixelRatio ratio => with_host (set_devicePixelRatio ratio) w
  | EvSleep ms => advance ms w
  | EvFrame => frame w
  | EvWorkerStore v => with_worker (fun _ => mkVimWorker (to_int32 v)) w
  end.

Definition run (w : World) (es : list Event) : World := fold_left step es w.

(** The messages posted to the worker, with their times. *)
Definition posted (tr : list (Z * HostCall)) : list (Z * MessageFromMain) :=
  flat_map (fun c => match snd c with
                     | PostMessage m => [(fst c, m)]
                     | _ => []
                     end) tr.

(** The wake signals issued, with their times. *)
Definition wakes (tr : list (Z * HostCall)) : list Z :=
  flat_map (fun c => match snd c with
                     | AtomicsStore _ _ => [fst c]
                     | _ => []
                     end) tr.

Definition alerts (tr : list (Z * HostCall)) : list string :=
  flat_map (fun c => match snd c with
                     | Alert m => [m]
                     | _ => []
                     end) tr.

(** ** Vocabulary of the properties *)

(** The events the filter is said to drop: a key name of more than one
    character that is [Unidentified], or a modifier whose own flag is
    already set. *)
Definition redundant_key (e : KeyboardEvent) : Prop :=
  (1 < String.length (ev_key e))%nat
  /\ (ev_key e = "Unidentified"
      \/ (ev_ctrlKey e = true /\ ev_key e = "Control")
      \/ (ev_shiftKey e = true /\ ev_key e = "Shift")
      \/ (ev_altKey e = true /\ ev_key e = "Alt")
      \/ (ev_metaKey e = true /\ ev_key e = "Meta")).

(** The device-pixel value of a logical length or position. *)
Definition device (v : number) (w : World) : Z := Math_floor (v * dpr w).

Definition is_rect_seg (s : PathSeg) : bool :=
  match s with
  | SegRect _ _ _ _ => true
  | _ => false
  end.

(** A paint operation that puts the outline of a rectangle sub-path on the
    surface. *)
Definition strokes_rect (op : PaintOp) : bool :=
  match op with
  | PStroke _ _ _ p => existsb is_rect_seg p
  | _ => false
  end.

(** The instructions applied one after the other, each to the world the
    one before it left, whether it returned or threw. *)
Definition applied (ms : list DrawEventMessage) (w : World) : World :=
  fold_left (fun w m => world_of (ScreenCanvas.apply m w)) ms w.

(** What a run of instructions adds to the paint history. *)
Definition painted_by (ms : list DrawEventMessage) (w : World) : list PaintOp :=
  skipn (length (painted (ctx w))) (painted (ctx (applied ms w))).

(** An argument of [drawText] after the scaling at the head of the
    function, [v = v * dpr]. *)
Definition scaled (v : number) (w : World) : number := (v * dpr w)%Q.

(** The font string of a text run. *)
Definition text_font (ch : number) (bold : bool) (w : World) : string :=
  let f :=
    (string_of_Z (device ch w) ++ "px " ++ js_string (fontName (screen w)))
      %string in
  if bold then ("bold " ++ f)%string else f.

(** Where [drawText] puts what it draws.  The arguments are scaled first,
    the scaled values are combined, and the floor is taken last: the
    column of glyph [i] (for [i] the length, the end of the run), the line
    of the glyphs, of an underline or undercurl, and of a strike, and the
    dash length of an undercurl. *)
Definition glyph_column (cw x : number) (i : nat) (w : World) : Z :=
  Math_floor (scaled x w + scaled cw w * inject_Z (Z.of_nat i)).

Definition glyph_line (lh y : number) (w : World) : Z :=
  Math_floor (scaled y w + scaled lh w).

Definition underline_line (lh y : number) (w : World) : Z :=
  Math_floor (scaled y w + scaled lh w - 3 * dpr w).

Definition strike_line (lh y : number) (w : World) : Z :=
  Math_floor (scaled y w + scaled lh w / 2).

Definition curl_width (cw : number) (w : World) : Z :=
  Math_floor (scaled cw w / 3).

(** The glyphs of a text run, one per code unit. *)
Definition text_glyphs (text : list code_unit) (ch lh cw x y : number)
           (bold : bool) (w : World) : list PaintOp :=
  map (fun i =>
         PFillText (Some (text_font ch bold w)) (Some "ideographic")
                   (fgColor (screen w)) (ScreenCanvas.char_at text i)
                   (glyph_column cw x i w) (glyph_line lh y w))
      (seq 0 (length text)).

(** The decoration of a text run: one stroked segment from the start of
    the run to its end; the line width is the pixel ratio itself.  An
    undercurl sets the dash, unless its length is negative; a strike
    leaves the dash as it finds it. *)
Definition text_decoration (text : list code_unit) (lh cw x y : number)
           (underline undercurl strike : bool) (w : World) : list PaintOp :=
  let seg (line : Z) :=
    [SegMoveTo (device x w) line;
     SegLineTo (glyph_column cw x (length text) w) line] in
  let width := Some (1 * dpr w)%Q in
  if underline then
    [PStroke (fgColor (screen w)) width [] (seg (underline_line lh y w))]
  else if undercurl then
    [PStroke (spColor (screen w)) width
             (lineDash (Context2D.setLineDash
                          [curl_width cw w; curl_width cw w] (ctx w)))
             (seg (underline_line lh y w))]
  else if strike then
    [PStroke (fgColor (screen w)) width (lineDash (ctx w))
             (seg (strike_line lh y w))]
  else [].


Definition seg_coords (s : PathSeg) : list Z :=
  match s with
  | SegRect x y w h => [x; y; w; h]
  | SegMoveTo x y => [x; y]
  | SegLineTo x y => [x; y]
  end.

(** The device-pixel coordinates a paint operation is given. *)
Definition op_coords (op : PaintOp) : list Z :=
  match op with
  | PFillRect _ x y w h => [x; y; w; h]
  | PFillText _ _ _ _ x y => [x; y]
  | PStroke _ _ _ p => flat_map seg_coords p
  | PPutImageData _ dx dy _ _ => [dx; dy]
  | PDrawImage sx sy sw sh dx dy dw dh => [sx; sy; sw; sh; dx; dy; dw; dh]
  end.


(** A page to try things on: ratio 3/2, an 800 by 600 canvas box, a
    browser whose rasteriser is left out. *)
Definition sample_boot : Boot :=
  mkBoot 0 (3 # 2) ["Worker"; "Atomics"; "SharedArrayBuffer"]
         (mkDOMRect 600 800) (mkInputStyle None None) (fun _ b => b) false.

Definition sample_world : World := boot sample_boot.

(** The draw instructions delivered by a run of events, in order. *)
Definition draws (es : list Event) : list DrawEventMessage :=
  flat_map (fun e => match e with
                     | EvMessage (MDraw d) => [d]
                     | _ => []
                     end) es.

(** No display refresh among the events. *)
Definition no_frame (es : list Event) : bool :=
  forallb (fun e => match e with
                    | EvFrame => false
                    | _ => true
                    end) es.

(** At most one refresh callback is registered, and while the scheduled
    flag is clear none is and the queue is empty. *)
Definition raf_consistent (w : World) : Prop :=
  (rafCallbacks (host w) <= 1)%nat
  /\ (rafScheduled (screen w) = false ->
      rafCallbacks (host w) = 0%nat /\ queue (screen w) = []).

(** The renderer after a flush was left by an exception: the flag is set
    and no callback is registered. *)
Definition stalled (w : World) : Prop :=
  rafScheduled (screen w) = true /\ rafCallbacks (host w) = 0%nat.

(** The claim as stated, for the refresh that follows a batch: it applies
    every queued instruction in order, and afterwards the queue is empty
    and the scheduled flag is clear. *)
Definition flushes_whole_queue (w : World) : Prop :=
  let w' := step w EvFrame in
  painted (ctx w') = painted (ctx (applied (queue (screen w)) w))
  /\ queue (screen w') = []
  /\ rafScheduled (screen w') = false.

(** A world in which message [m] ends the session for good: whatever
    happens after it, the key and resize listeners are gone and nothing
    more is posted to the worker. *)
Definition tears_down (m : MessageFromWorker) (w : World) : Prop :=
  forall es,
    let w' := run (step w (EvMessage m)) es in
    listening OnInputKeydown w' = false
    /\ listening OnWindowResize w' = false
    /\ posted (trace (host w')) = posted (trace (host (step w (EvMessage m)))).

(** The key [a] with no modifier. *)
Definition key_a : KeyboardEvent :=
  mkKeyboardEvent "a" "KeyA" 65 false false false false.

(** The sample page with the session started. *)
Definition sample_session : World := run sample_world [EvMessage MStarted].

(** *** Resize bursts *)

(** The state of the debounce: idle ([None]), or a timer armed [e]
    milliseconds ago ([Some e]) and not yet due. *)
Definition resize_timer (w : World) (p : option Z) : Prop :=
  match p with
  | None => bounceTimerToken (resizer w) = None /\ timers (host w) = []
  | Some e =>
      0 <= e < 1000
      /\ exists tok,
          bounceTimerToken (resizer w) = Some tok
          /\ timers (host w) = [(tok, now (host w) - e + 1000)]
  end.

(** Events of a resize burst: notifications, layout changes of the canvas
    and pauses, every pause ending less than 1000 ms after the latest
    notification. *)
Fixpoint within_window (p : option Z) (es : list Event) : bool :=
  match es with
  | [] => true
  | EvWindowResize :: r => within_window (Some 0) r
  | EvLayout _ :: r => within_window p r
  | EvSleep ms :: r =>
      match p with
      | None => within_window None r
      | Some e =>
          (e + Z.max 0 ms <? 1000) && within_window (Some (e + Z.max 0 ms)) r
      end
  | _ :: _ => false
  end.

(** The debounce state a burst leaves behind. *)
Fixpoint window_after (p : option Z) (es : list Event) : option Z :=
  match es with
  | [] => p
  | EvWindowResize :: r => window_after (Some 0) r
  | EvSleep ms :: r =>
      window_after (option_map (fun e => e + Z.max 0 ms) p) r
  | _ :: r => window_after p r
  end.

Definition no_resize (es : list Event) : bool :=
  forallb (fun e => match e with
                    | EvWindowResize => false
                    | _ => true
                    end) es.

(** Time slept in a run of events. *)
Definition slept (es : list Event) : Z :=
  fold_right (fun e acc => match e with
                           | EvSleep ms => Z.max 0 ms + acc
                           | _ => acc
                           end) 0 es.

(** The [resize] message for the canvas box as it is in [w]. *)
Definition resize_of (w : World) : MessageFromMain :=
  MResize (rect_height (canvasRect (host w))) (rect_width (canvasRect (host w))).

(** The reading of the debounce by which the one message of a burst
    carries the box seen at the last notification. *)
Definition carries_notified_geometry (w0 : World) (burst tail : list Event)
           (ms : Z) : Prop :=
  let wn := run w0 (burst ++ [EvWindowResize]) in
  let w2 := run wn (tail ++ [EvSleep ms]) in
  map snd (posted (trace (host w2)))
  = map snd (posted (trace (host w0))) ++ [resize_of wn].

(** The reading of teardown by which a pending timer is cancelled and no
    resize message follows. *)
Definition cancels_on_teardown (w : World) : Prop :=
  let wx := step w (EvMessage MExit) in
  timers (host wx) = []
  /\ forall ms, posted (trace (host (step wx (EvSleep ms))))
                = posted (trace (host w)).

(** The canvas box after the layout changes of a run of events. *)
Definition rect_after (es : list Event) (r : DOMRect) : DOMRect :=
  fold_left (fun r e => match e with
                        | EvLayout r' => r'
                        | _ => r
                        end) es r.

Definition no_layout (es : list Event) : bool :=
  forallb (fun e => match e with
                    | EvLayout _ => false
                    | _ => true
                    end) es.

(** Five notifications 100 ms apart while the box grows to 800 by 600. *)
Definition sample_burst : list Event :=
  [EvLayout (mkDOMRect 400 400); EvWindowResize; EvSleep 100;
   EvLayout (mkDOMRect 450 500); EvWindowResize; EvSleep 100;
   EvLayout (mkDOMRect 500 600); EvWindowResize; EvSleep 100;
   EvLayout (mkDOMRect 550 700); EvWindowResize; EvSleep 100;
   EvLayout (mkDOMRect 600 800)].

(** *** Inversion *)

(** The complement of a pixel: each colour channel [v] becomes
    [255 - v], alpha stays. *)
Definition complement (p : Pixel) : Pixel :=
  mkPixel (255 - px_r p) (255 - px_g p) (255 - px_b p) (px_a p).

(** Membership in the device rectangle at [(X, Y)] of size [W] by [H]. *)
Definition in_rect (X Y W H cx cy : Z) : bool :=
  (X <=? cx) && (cx <? X + W) && (Y <=? cy) && (cy <? Y + H).

Definition bitmap_ok (b : Bitmap) : Prop :=
  forall x y p, b x y = Some p -> pixel_ok p.

(** What the inversion loop does to the byte at offset [r] of a pixel. *)
Definition invert_channel (r : nat) (v : Z) : Z :=
  if (r =? 3)%nat then v else clamp8 (255 - v).

(** The shared cell holds a 32-bit signed value. *)
Definition int32_cell (w : World) : Prop :=
  - 2 ^ 31 <= sharedBuffer (worker w) < 2 ^ 31.

(** *** The session *)

(** No [started] message among the events. *)
Definition no_started (es : list Event) : bool :=
  forallb (fun e => match e with
                    | EvMessage MStarted => false
                    | _ => true
                    end) es.

(** The session listeners are off and no timer is pending. *)
Definition inactive (w : World) : Prop :=
  listening OnInputKeydown w = false
  /\ listening OnWindowResize w = false
  /\ timers (host w) = [].

(** *** Projections of the trace *)

(** Times of the [key] messages in a trace. *)
Definition key_times (tr : list (Z * HostCall)) : list Z :=
  flat_map (fun c => match snd c with
                     | PostMessage (MKey _ _ _ _ _ _ _) => [fst c]
                     | _ => []
                     end) tr.

(** Times of the [resize] messages in a trace. *)
Definition resize_times (tr : list (Z * HostCall)) : list Z :=
  flat_map (fun c => match snd c with
                     | PostMessage (MResize _ _) => [fst c]
                     | _ => []
                     end) tr.

(** The sizes told to the worker, by [start] and [resize] messages. *)
Definition told_sizes (tr : list (Z * HostCall)) : list (number * number) :=
  flat_map (fun c => match snd c with
                     | PostMessage (MStart h w _) => [(h, w)]
                     | PostMessage (MResize h w) => [(h, w)]
                     | _ => []
                     end) tr.

(** Consecutive times at least 1000 ms apart. *)
Fixpoint spaced (l : list Z) : Prop :=
  match l with
  | a :: (b :: _) as r => a + 1000 <= b /\ spaced r
  | _ => True
  end.

(** The debounce timer of [w]: none, or exactly one, stored in the
    handler and due within the next 1000 ms. *)
Definition debounce_ok (w : World) : Prop :=
  match bounceTimerToken (resizer w) with
  | None => timers (host w) = []
  | Some tok =>
      exists due, timers (host w) = [(tok, due)]
                  /\ now (host w) < due <= now (host w) + 1000
  end.

(** The invariant behind the spacing of resize messages: the timer state,
    the spacing so far, and the latest resize message not later than the
    arming of the pending timer. *)
Definition debounce_inv (w : World) (p : option Z) : Prop :=
  resize_timer w p
  /\ spaced (resize_times (trace (host w)))
  /\ forall T, last (resize_times (trace (host w))) = Some T ->
               T <= now (host w) - default 0 p.

(** The handler remembers the size of the latest [start] or [resize]
    message. *)
Definition size_told (w : World) : Prop :=
  last (told_sizes (trace (host w)))
  = Some (elemHeight (resizer w), elemWidth (resizer w)).

(** *** Drawing state *)

(** What the drawing primitives read and write when they paint: the
    context, the foreground and special colours, the font name and the
    pixel ratio. *)
Definition ink (w : World)
  : Context2D * option string * option string * option string * number :=
  (ctx w, fgColor (screen w), spColor (screen w), fontName (screen w),
   devicePixelRatio (host w)).

(** Everything the draw instructions can change. *)
Definition drawn (w : World)
  : Context2D * (option string * option string * option string * option string)
    * InputStyle :=
  (ctx w,
   (fgColor (screen w), bgColor (screen w), spColor (screen w),
    fontName (screen w)),
   inputStyle (host w)).

(** The display scale does not change during the events. *)
Definition no_ratio_change (es : list Event) : bool :=
  forallb (fun e => match e with
                    | EvDevicePixelRatio _ => false
                    | _ => true
                    end) es.

(** The world a flush of the instructions [ms] leaves: they are applied
    one after the other, up to the first that throws. *)
Definition apply_all (ms : list DrawEventMessage) (w : World) : World :=
  world_of (ScreenCanvas.applyQueue ms w).

(** Two flushes that end the same way, with the same drawing. *)
Definition same_flush (c1 c2 : Completion) : Prop :=
  returns c1 = returns c2
  /\ drawn (world_of c1) = drawn (world_of c2)
  /\ devicePixelRatio (host (world_of c1))
     = devicePixelRatio (host (world_of c2)).

(** The renderer in every reachable state, the pixel ratio being fixed:
    either a flush was left by an exception, and the instructions received
    so far, applied in order, stop at that exception with the drawing as
    it is; or what is queued, applied to the world as it is, ends as all
    the instructions received do when applied to the world at load. *)
Definition batching_inv (b : Boot) (es : list Event) (w : World) : Prop :=
  let all := ScreenCanvas.applyQueue (draws es) (boot b) in
  devicePixelRatio (host w) = devicePixelRatio (host (boot b))
  /\ raf_consistent w
  /\ ((stalled w /\ returns all = false /\ drawn (world_of all) = drawn w)
      \/ (rafCallbacks (host w)
          = (if rafScheduled (screen w) then 1 else 0)%nat
          /\ same_flush (ScreenCanvas.applyQueue (queue (screen w)) w) all)).

(** The part of an instruction that matters for painting: background
    colours are dropped and the size of a font is forgotten. *)
Definition painting_part (m : DrawEventMessage) : option DrawEventMessage :=
  match m with
  | DSetColorBG _ => None
  | DSetFont name _ => Some (DSetFont name 0)
  | _ => Some m
  end.

(** The instructions the canvas refuses: an inversion whose device width
    or height is zero, a scroll on a canvas with a dimension of zero. *)
Definition degenerate (m : DrawEventMessage) (w : World) : bool :=
  match m with
  | DInvertRect _ _ wi h => (device wi w =? 0) || (device h w =? 0)
  | DImageScroll _ _ _ _ _ =>
      (canvas_width (ctx w) =? 0) || (canvas_height (ctx w) =? 0)
  | _ => false
  end.

(** The capabilities the script checks, in the order it checks them. *)
Definition capabilities : list string :=
  ["Worker"; "Atomics"; "SharedArrayBuffer"].

(** The first capability the window lacks. *)
Definition first_missing (props : list string) : option string :=
  List.find (fun p => negb (existsb (String.eqb p) props)) capabilities.

(** The error message of a missing capability. *)
Definition unsupported (p : string) : string :=
  ("window." ++ p ++ " is not supported by this browser")%string.

(** Events that draw nothing by themselves: a key, a notification, a long
    pause, a click, two draw messages. *)
Definition idle_events : list Event :=
  [EvKeydown key_a; EvWindowResize; EvSleep 2000; EvClick;
   EvMessage (MDraw (DSetColorFG "#ffffff"));
   EvMessage (MDraw (DDrawRect 0 0 2 2 "#000000" true))].

(** Two batches of draw messages with other events in between. *)
Definition busy_events : list Event :=
  [EvMessage MStarted;
   EvMessage (MDraw (DSetColorFG "#ffffff"));
   EvMessage (MDraw (DSetFont "monospace" 12));
   EvKeydown key_a; EvFrame;
   EvMessage (MDraw (DDrawText [97; 98] 10 12 6 0 0 false true false
                               false));
   EvWindowResize; EvSleep 1000;
   EvMessage (MDraw (DInvertRect 0 0 2 2))].

(** The sample page on a display that reports ratio 0. *)
Definition zero_ratio_world : World :=
  boot (mkBoot 0 0 ["Worker"; "Atomics"; "SharedArrayBuffer"]
               (mkDOMRect 600 800) (mkInputStyle None None) (fun _ b => b)
               false).

(** * Properties *)

(** ** Start-up *)

(** With the three capabilities present the script runs to its end and
    leaves the world [boot]. *)
Lemma main_boots (b : Boot) :
  existsb (String.eqb "Worker") (boot_props b) = true ->
  existsb (String.eqb "Atomics") (boot_props b) = true ->
  existsb (String.eqb "SharedArrayBuffer") (boot_props b) = true ->
  main (boot_host b) (boot_raster b) (boot_debug b) = Normal (boot b).
Proof.
  intros H1 H2 H3. unfold main, checkCompat, boot_host, page.
  cbn [host windowProps]. rewrite H1.
  cbn [host windowProps]. rewrite H2.
  cbn [host windowProps]. rewrite H3. reflexivity.
Qed.

(** ** What the draw instructions leave alone *)

(** An instruction either returns or throws; in both cases the world it
    leaves differs from the one it found only in the context, the colour
    and font fields of the screen and the style of the input element. *)
Ltac case_apply m :=
  destruct m; cbn [ScreenCanvas.apply];
  unfold ScreenCanvas.invertRect, ScreenCanvas.imageScroll,
    Context2D.getImageData, Context2D.drawImage;
  try match goal with
      | |- context [if ?b then Raises _ else _] => destruct b
      end;
  cbn [world_of].

Lemma apply_host m w :
  let w' := world_of (ScreenCanvas.apply m w) in
  host w' = set_inputStyle (inputStyle (host w')) (host w)
  /\ worker w' = worker w
  /\ resizer w' = resizer w
  /\ queue (screen w') = queue (screen w)
  /\ rafScheduled (screen w') = rafScheduled (screen w).
Proof.
  destruct w as [h c wk rs sc]. destruct h.
  case_apply m; try (repeat split; reflexivity).
  - unfold ScreenCanvas.drawRect. destruct filled; repeat split; reflexivity.
  - unfold ScreenCanvas.drawText.
    destruct underline; [|destruct undercurl; [|destruct strike]];
      repeat split; reflexivity.
Qed.

Lemma apply_trace m w :
  trace (host (world_of (ScreenCanvas.apply m w))) = trace (host w).
Proof. destruct (apply_host m w) as [-> _]. reflexivity. Qed.

Lemma apply_listeners m w :
  listeners (host (world_of (ScreenCanvas.apply m w))) = listeners (host w).
Proof. destruct (apply_host m w) as [-> _]. reflexivity. Qed.

Lemma apply_timers m w :
  timers (host (world_of (ScreenCanvas.apply m w))) = timers (host w).
Proof. destruct (apply_host m w) as [-> _]. reflexivity. Qed.

Lemma apply_now m w :
  now (host (world_of (ScreenCanvas.apply m w))) = now (host w).
Proof. destruct (apply_host m w) as [-> _]. reflexivity. Qed.

Lemma apply_rafCallbacks m w :
  rafCallbacks (host (world_of (ScreenCanvas.apply m w)))
  = rafCallbacks (host w).
Proof. destruct (apply_host m w) as [-> _]. reflexivity. Qed.

Lemma apply_keeps_worker m w :
  worker (world_of (ScreenCanvas.apply m w)) = worker w.
Proof. apply apply_host. Qed.

(** The loop stops at the first instruction that throws; up to there it
    is the instructions applied in order. *)
Lemma applyQueue_preserves {A} (f : World -> A) :
  (forall m w, f (world_of (ScreenCanvas.apply m w)) = f w) ->
  forall q w, f (world_of (ScreenCanvas.applyQueue q w)) = f w.
Proof.
  intros Ha q. induction q as [|m q IH]; intros w; [reflexivity|].
  cbn [ScreenCanvas.applyQueue]. specialize (Ha m w).
  destruct (ScreenCanvas.apply m w) as [w'|e w']; cbn [world_of] in *.
  - rewrite IH. exact Ha.
  - exact Ha.
Qed.

Lemma applyQueue_normal q :
  forall w w',
    ScreenCanvas.applyQueue q w = Normal w' -> w' = applied q w.
Proof.
  induction q as [|m q IH]; intros w w' H; cbn in H.
  - injection H as <-. reflexivity.
  - unfold applied. cbn [fold_left].
    destruct (ScreenCanvas.apply m w) as [w1|e w1]; [|discriminate].
    cbn [world_of]. apply IH, H.
Qed.

Lemma applyQueue_app a b w :
  ScreenCanvas.applyQueue (a ++ b) w
  = match ScreenCanvas.applyQueue a w with
    | Normal w' => ScreenCanvas.applyQueue b w'
    | Throw e w' => Throw e w'
    end.
Proof.
  revert w. induction a as [|m a IH]; intros w; [reflexivity|].
  cbn [app ScreenCanvas.applyQueue].
  destruct (ScreenCanvas.apply m w); [apply IH|reflexivity].
Qed.

Lemma flush_preserves {A} (f : World -> A) :
  (forall m w, f (world_of (ScreenCanvas.apply m w)) = f w) ->
  (forall g w, f (with_screen g w) = f w) ->
  forall w, f (world_of (ScreenCanvas.onAnimationFrame w)) = f w.
Proof.
  intros Ha Hs w. unfold ScreenCanvas.onAnimationFrame.
  pose proof (applyQueue_preserves f Ha (queue (screen w)) w) as H.
  destruct (ScreenCanvas.applyQueue (queue (screen w)) w) as [w'|e w'];
    cbn [world_of] in *; [rewrite !Hs|]; exact H.
Qed.

Lemma settle_preserves {A} (f : World -> A) :
  (forall e w, f (call (Uncaught e) w) = f w) ->
  forall c, f (settle c) = f (world_of c).
Proof. intros Hu [w|e w]; [reflexivity|apply Hu]. Qed.

Lemma frame_preserves {A} (f : World -> A) :
  (forall m w, f (world_of (ScreenCanvas.apply m w)) = f w) ->
  (forall g w, f (with_screen g w) = f w) ->
  (forall w, f (with_host (set_rafCallbacks 0) w) = f w) ->
  (forall e w, f (call (Uncaught e) w) = f w) ->
  forall w, f (frame w) = f w.
Proof.
  intros Ha Hs Hr Hu w. unfold frame.
  induction (rafCallbacks (host w)) as [|n IH]; [apply Hr|].
  rewrite Nat.iter_succ, (settle_preserves f Hu), flush_preserves;
    assumption.
Qed.

(** A refresh adds to the trace only the reports of exceptions. *)
Lemma frame_trace w :
  exists d,
    trace (host (frame w)) = trace (host w) ++ d
    /\ Forall (fun c => exists e, snd c = Uncaught e) d.
Proof.
  unfold frame.
  change (trace (host w))
    with (trace (host (with_host (set_rafCallbacks 0) w))).
  generalize (with_host (set_rafCallbacks 0) w). intros w0.
  induction (rafCallbacks (host w)) as [|n IH].
  - exists []. rewrite app_nil_r. split; [reflexivity|constructor].
  - rewrite Nat.iter_succ. destruct IH as [d [E F]].
    set (w1 := Nat.iter n (fun w => settle (ScreenCanvas.onAnimationFrame w))
                        w0) in *.
    pose proof (flush_preserves (fun w => trace (host w)) apply_trace
                                (fun g w => eq_refl) w1) as Ht.
    cbn beta in Ht.
    destruct (ScreenCanvas.onAnimationFrame w1) as [w2|e w2];
      cbn [settle world_of] in *.
    + exists d. rewrite Ht. split; assumption.
    + exists (d ++ [(now (host w2), Uncaught e)]).
      cbn [call with_host host trace set_trace]. rewrite Ht, E, app_assoc.
      split; [reflexivity|]. apply Forall_app. split; [exact F|].
      repeat constructor. exists e. reflexivity.
Qed.

Lemma uncaught_only d :
  Forall (fun c => exists e, snd c = Uncaught e) d ->
  posted d = [] /\ wakes d = [] /\ alerts d = [] /\ key_times d = []
  /\ resize_times d = [] /\ told_sizes d = [].
Proof.
  induction 1 as [|c d [e He] _ IH]; [repeat split|].
  unfold posted, wakes, alerts, key_times, resize_times, told_sizes in *.
  cbn [flat_map]. rewrite He. exact IH.
Qed.

Lemma frame_keeps_worker w : worker (frame w) = worker w.
Proof.
  apply (frame_preserves worker); try reflexivity. apply apply_keeps_worker.
Qed.

(** ** The wake cell *)

Lemma to_int32_range v : - 2 ^ 31 <= to_int32 v < 2 ^ 31.
Proof.
  unfold to_int32.
  pose proof (Z.mod_pos_bound (v + 2 ^ 31) (2 ^ 32) ltac:(lia)). lia.
Qed.

Lemma advance_keeps_worker ms w : worker (advance ms w) = worker w.
Proof.
  unfold advance.
  generalize (sort_by_due
                (List.filter (fun t => snd t <=? now (host w) + Z.max 0 ms)
                             (timers (host w)))).
  intros l. cbn [with_host worker]. revert w.
  induction l as [|t l IH]; intros w; [reflexivity|].
  cbn [fold_left]. rewrite IH. unfold fire.
  destruct (armed (fst t) w); reflexivity.
Qed.

Lemma step_keeps_int32 w e : int32_cell w -> int32_cell (step w e).
Proof.
  intros Hc. unfold int32_cell.
  destruct e as [m| ev | | | | | | | | |v]; cbn [step].
  - destruct m; try exact Hc; cbn;
      unfold ScreenCanvas.onVimInit, ScreenCanvas.onVimExit,
        ResizeHandler.onVimInit, InputHandler.onVimInit, addEventListener;
      repeat match goal with
             | |- context [if ?b then _ else _] => destruct b
             end; exact Hc.
  - destruct (listening OnInputKeydown w); [|exact Hc].
    unfold InputHandler.onKeydown.
    match goal with |- context [if ?b then _ else _] => destruct b end;
      [exact Hc|apply to_int32_range].
  - destruct (listening _ w); exact Hc.
  - destruct (listening _ w); exact Hc.
  - destruct (listening _ w); exact Hc.
  - destruct (listening _ w); [|exact Hc].
    unfold ResizeHandler.onResize.
    destruct (bounceTimerToken (resizer w)); exact Hc.
  - exact Hc.
  - exact Hc.
  - rewrite advance_keeps_worker. exact Hc.
  - rewrite frame_keeps_worker. exact Hc.
  - apply to_int32_range.
Qed.

Lemma boot_int32 b : int32_cell (boot b).
Proof.
  unfold int32_cell, boot, create, addEventListener.
  match goal with |- context [if ?c then _ else _] => destruct c end;
    cbn; lia.
Qed.

Lemma run_keeps_int32 es : forall w, int32_cell w -> int32_cell (run w es).
Proof.
  induction es as [|e es IH]; intros w Hc; [exact Hc|].
  cbn. apply IH, step_keeps_int32, Hc.
Qed.

(** C7.  The shared buffer is one cell that starts at 0 and holds a
    32-bit value at all times.  Every [awakeWorkerThread] stores 1 in it
    (one [Atomics.store] at index 0, whatever the cell held before), so
    after any positive number of calls the cell holds 1, and a second call
    leaves the worker object as the first one left it. *)
Theorem wake_cell_level_signal :
  forall (b : Boot) (w : World) (n : nat),
    sharedBuffer (worker (boot b)) = 0
    /\ (forall es, int32_cell (run (boot b) es))
    /\ sharedBuffer (worker (VimWorker.awakeWorkerThread w)) = 1
    /\ trace (host (VimWorker.awakeWorkerThread w))
       = trace (host w) ++ [(now (host w), AtomicsStore 0 1)]
    /\ sharedBuffer (worker (Nat.iter (S n) VimWorker.awakeWorkerThread w)) = 1
    /\ worker (VimWorker.awakeWorkerThread (VimWorker.awakeWorkerThread w))
       = worker (VimWorker.awakeWorkerThread w).
Proof.
  intros b w n.
  split.
  - unfold boot, create, addEventListener.
    match goal with |- context [if ?b then _ else _] => destruct b end;
      reflexivity.
  - split; [intros es; apply run_keeps_int32, boot_int32|].
    repeat split; reflexivity.
Qed.

(** ** The key filter *)

Lemma posted_app (a b : list (Z * HostCall)) :
  posted (a ++ b) = posted a ++ posted b.
Proof. unfold posted. apply flat_map_app. Qed.

Lemma wakes_app (a b : list (Z * HostCall)) :
  wakes (a ++ b) = wakes a ++ wakes b.
Proof. unfold wakes. apply flat_map_app. Qed.

Lemma alerts_app (a b : list (Z * HostCall)) :
  alerts (a ++ b) = alerts a ++ alerts b.
Proof. unfold alerts. apply flat_map_app. Qed.

Lemma redundant_key_test (e : KeyboardEvent) :
  redundant_key e <->
  (1 <? String.length (ev_key e))%nat
  && (String.eqb (ev_key e) "Unidentified"
      || (ev_ctrlKey e && String.eqb (ev_key e) "Control")
      || (ev_shiftKey e && String.eqb (ev_key e) "Shift")
      || (ev_altKey e && String.eqb (ev_key e) "Alt")
      || (ev_metaKey e && String.eqb (ev_key e) "Meta")) = true.
Proof.
  unfold redundant_key.
  rewrite andb_true_iff, !orb_true_iff, !andb_true_iff, !String.eqb_eq.
  rewrite Nat.ltb_lt. tauto.
Qed.

Lemma onKeydown_dropped (e : KeyboardEvent) (w : World) :
  redundant_key e ->
  InputHandler.onKeydown e w = call StopPropagation (call PreventDefault w).
Proof.
  intros Hr. apply redundant_key_test in Hr.
  unfold InputHandler.onKeydown. rewrite Hr. reflexivity.
Qed.

Lemma onKeydown_forwarded (e : KeyboardEvent) (w : World) :
  ~ redundant_key e ->
  InputHandler.onKeydown e w
  = VimWorker.sendMessage
      (MKey (ev_code e) (ev_keyCode e) (ev_key e) (ev_ctrlKey e)
            (ev_shiftKey e) (ev_altKey e) (ev_metaKey e))
      (VimWorker.awakeWorkerThread
         (call StopPropagation (call PreventDefault w))).
Proof.
  intros Hr. unfold InputHandler.onKeydown.
  match goal with |- context [if ?b then _ else _] => destruct b eqn:Hb end.
  - exfalso. apply Hr, redundant_key_test, Hb.
  - reflexivity.
Qed.

Lemma redundant_key_dec (e : KeyboardEvent) :
  redundant_key e \/ ~ redundant_key e.
Proof.
  pose proof (redundant_key_test e) as Hk.
  match type of Hk with _ <-> ?b = true => destruct b end.
  - left. apply Hk. reflexivity.
  - right. intros Hr. apply Hk in Hr. discriminate.
Qed.

(** C3.  A keydown event is either redundant, and then the handler only
    suppresses the browser's default handling: no message is posted, no
    wake signal is issued and the worker object is untouched; or it is not,
    and then the handler stores 1 in the wake cell and after that posts
    exactly one [key] message with the event's code, keyCode, key and the
    four modifier flags. *)
Theorem onKeydown_filters_or_forwards :
  forall (e : KeyboardEvent) (w : World),
    let w' := InputHandler.onKeydown e w in
    let t := now (host w) in
    (redundant_key e
     /\ trace (host w') = trace (host w) ++ [(t, PreventDefault); (t, StopPropagation)]
     /\ posted (trace (host w')) = posted (trace (host w))
     /\ wakes (trace (host w')) = wakes (trace (host w))
     /\ worker w' = worker w)
    \/
    (~ redundant_key e
     /\ trace (host w')
        = trace (host w)
          ++ [(t, PreventDefault); (t, StopPropagation);
              (t, AtomicsStore 0 1);
              (t, PostMessage (MKey (ev_code e) (ev_keyCode e) (ev_key e)
                                    (ev_ctrlKey e) (ev_shiftKey e)
                                    (ev_altKey e) (ev_metaKey e)))]
     /\ posted (trace (host w'))
        = posted (trace (host w))
          ++ [(t, MKey (ev_code e) (ev_keyCode e) (ev_key e)
                       (ev_ctrlKey e) (ev_shiftKey e)
                       (ev_altKey e) (ev_metaKey e))]
     /\ wakes (trace (host w')) = wakes (trace (host w)) ++ [t]
     /\ sharedBuffer (worker w') = 1).
Proof.
  intros e w w' t. subst w'.
  destruct (redundant_key_dec e) as [Hr|Hr].
  - left. split; [exact Hr|].
    rewrite (onKeydown_dropped e w Hr).
    cbn. rewrite <- !app_assoc. cbn.
    rewrite posted_app, wakes_app. cbn. rewrite !app_nil_r. auto.
  - right. split; [exact Hr|].
    rewrite (onKeydown_forwarded e w Hr).
    cbn. rewrite <- !app_assoc. cbn.
    rewrite posted_app, wakes_app. cbn. auto.
Qed.

(** ** Drawing primitives *)

(** C10.  Executing a set-font instruction returns normally; it sets the
    renderer's font name and, outside the renderer, the font family and
    font size of the input element; the drawing context (properties, path,
    paint history and bitmap) is left as it was, and so are the colours,
    the queue, the worker and the resize handler. *)
Theorem setFont_updates_name_and_input_only :
  forall (name : string) (size : number) (w : World),
    let w' := world_of (ScreenCanvas.apply (DSetFont name size) w) in
    ScreenCanvas.apply (DSetFont name size) w = Normal w'
    /\ fontName (screen w') = Some name
    /\ fontFamily (inputStyle (host w')) = Some name
    /\ fontSize_px (inputStyle (host w')) = Some size
    /\ ctx w' = ctx w
    /\ fgColor (screen w') = fgColor (screen w)
    /\ bgColor (screen w') = bgColor (screen w)
    /\ spColor (screen w') = spColor (screen w)
    /\ queue (screen w') = queue (screen w)
    /\ rafScheduled (screen w') = rafScheduled (screen w)
    /\ trace (host w') = trace (host w)
    /\ worker w' = worker w
    /\ resizer w' = resizer w.
Proof.
  intros name size w w'. subst w'. cbn.
  repeat split; reflexivity.
Qed.

(** *** The paint history of the primitives *)

Lemma fold_fillText (g : nat -> list code_unit) (fx : nat -> Z) (yi : Z)
      (l : list nat) :
  forall c,
    fold_left (fun c i => Context2D.fillText (g i) (fx i) yi c) l c
    = set_surface
        (painted c
         ++ map (fun i => PFillText (font c) (textBaseline c) (fillStyle c)
                                    (g i) (fx i) yi) l)
        (fold_left
           (fun b i => raster c (PFillText (font c) (textBaseline c)
                                           (fillStyle c) (g i) (fx i) yi) b)
           l (bitmap c))
        c.
Proof.
  induction l as [|i l IH]; intros c.
  - cbn. rewrite app_nil_r. destruct c; reflexivity.
  - cbn [fold_left map]. rewrite IH. cbn.
    rewrite <- app_assoc. reflexivity.
Qed.

Lemma floor_eq (a b : Q) : (a == b)%Q -> Math_floor a = Math_floor b.
Proof. intros H. unfold Math_floor. now rewrite H. Qed.

Ltac eval_draw :=
  cbn -[Qmult Qplus Qminus Qdiv Math_floor string_of_Z append seq
        String.length Z.leb].

Lemma drawText_painted text ch lh cw x y bold ul uc st w :
  painted (ctx (ScreenCanvas.drawText text ch lh cw x y bold ul uc st w))
  = painted (ctx w) ++ text_glyphs text ch lh cw x y bold w
      ++ text_decoration text lh cw x y ul uc st w.
Proof.
  unfold ScreenCanvas.drawText, ScreenCanvas.fillGlyphs, text_glyphs,
    text_decoration, text_font, glyph_column, glyph_line, underline_line,
    strike_line, curl_width, scaled, device, Context2D.setLineDash.
  destruct ul; [|destruct uc; [|destruct st]];
    eval_draw;
    try match goal with
        | |- context [0 <=? ?k] => destruct (0 <=? k)
        end;
    eval_draw; rewrite fold_fillText; eval_draw;
    rewrite <- ?app_assoc, ?app_nil_r; reflexivity.
Qed.

Lemma drawText_font text ch lh cw x y bold ul uc st w :
  font (ctx (ScreenCanvas.drawText text ch lh cw x y bold ul uc st w))
  = Some (text_font ch bold w).
Proof.
  unfold ScreenCanvas.drawText, ScreenCanvas.fillGlyphs, text_font, device,
    Context2D.setLineDash.
  destruct ul; [|destruct uc; [|destruct st]];
    eval_draw;
    try match goal with
        | |- context [0 <=? ?k] => destruct (0 <=? k)
        end;
    eval_draw; rewrite fold_fillText; eval_draw;
    destruct bold; reflexivity.
Qed.


(** Each instruction extends the paint history, and never by a stroke
    over a rectangle sub-path: every [stroke] of the script comes right
    after [beginPath], [moveTo], [lineTo]. *)
Lemma apply_extends_painted (m : DrawEventMessage) (w : World) :
  exists ops,
    painted (ctx (world_of (ScreenCanvas.apply m w))) = painted (ctx w) ++ ops
    /\ Forall (fun op => strokes_rect op = false) ops.
Proof.
  case_apply m.
  1-4: exists []; rewrite app_nil_r; split; [reflexivity|constructor].
  - destruct filled.
    + eexists. split; [reflexivity|]. repeat constructor.
    + exists []. rewrite app_nil_r. split; [reflexivity|constructor].
  - eexists. split; [apply drawText_painted|].
    apply Forall_app. split.
    + unfold text_glyphs. apply List.Forall_forall. intros op Hin.
      apply in_map_iff in Hin. destruct Hin as [i [<- _]]. reflexivity.
    + unfold text_decoration.
      destruct underline; [|destruct undercurl; [|destruct strike]];
        repeat constructor.
  - exists []. rewrite app_nil_r. split; [reflexivity|constructor].
  - eexists. split; [reflexivity|]. repeat constructor.
  - exists []. rewrite app_nil_r. split; [reflexivity|constructor].
  - eexists. split; [reflexivity|]. repeat constructor.
Qed.

Lemma run_extends_painted (ms : list DrawEventMessage) :
  forall w,
    exists ops,
      painted (ctx (applied ms w)) = painted (ctx w) ++ ops
      /\ Forall (fun op => strokes_rect op = false) ops.
Proof.
  unfold applied. induction ms as [|m ms IH]; intros w.
  - exists []. cbn. rewrite app_nil_r. split; [reflexivity|constructor].
  - cbn [fold_left].
    destruct (apply_extends_painted m w) as [o1 [E1 F1]].
    destruct (IH (world_of (ScreenCanvas.apply m w))) as [o2 [E2 F2]].
    exists (o1 ++ o2). split.
    + rewrite E2, E1, app_assoc. reflexivity.
    + apply Forall_app. split; assumption.
Qed.

Lemma painted_by_spec (ms : list DrawEventMessage) (w : World) :
  painted (ctx (applied ms w)) = painted (ctx w) ++ painted_by ms w
  /\ Forall (fun op => strokes_rect op = false) (painted_by ms w).
Proof.
  destruct (run_extends_painted ms w) as [ops [E F]].
  unfold painted_by. rewrite E.
  rewrite skipn_app, skipn_all, Nat.sub_diag. cbn. split; [reflexivity|exact F].
Qed.



(** [Math.floor] on binary64 values rounds towards minus infinity; and
    where no operation rounds, the binary64 reading of the draw calls
    agrees with the world model: on the sample page (ratio 3/2) the
    second glyph of the run above is at column 9 on line 18, and a length
    of 10 is 15 device pixels. *)
Example binary64_on_the_sample_page :
  Binary64.Math_floor 0x1.4p+1 = 2%float
  /\ Binary64.Math_floor (- 0x1.4p+1) = (- 3)%float
  /\ Binary64.Math_floor (- 0x1p-1) = (- 1)%float
  /\ Binary64.glyph_position 12 6 0 0 0x1.8p+0 1 = (9%float, 18%float)
  /\ Binary64.rect_coordinate 10 0x1.8p+0 = 15%float.
Proof. repeat split. Qed.


(** C9.  With [filled] the rectangle is filled in the given colour, at the
    floored device rectangle.  Without it nothing reaches the surface: the
    call sets the fill style and adds the rectangle to the current path,
    the paint history and the bitmap stay as they were, and no later
    instruction strokes that path either. *)
Theorem drawRect_unfilled_paints_nothing :
  forall (x y wi h : number) (color : string) (w : World)
         (ms : list DrawEventMessage),
    let wf := ScreenCanvas.drawRect x y wi h color true w in
    let wu := ScreenCanvas.drawRect x y wi h color false w in
    painted (ctx wf)
    = painted (ctx w)
      ++ [PFillRect (Some color) (device x w) (device y w) (device wi w)
                    (device h w)]
    /\ painted (ctx wu) = painted (ctx w)
    /\ bitmap (ctx wu) = bitmap (ctx w)
    /\ fillStyle (ctx wu) = Some color
    /\ path (ctx wu)
       = path (ctx w)
         ++ [SegRect (device x w) (device y w) (device wi w) (device h w)]
    /\ Forall (fun op => strokes_rect op = false) (painted_by ms wu).
Proof.
  intros. repeat split.
  apply painted_by_spec.
Qed.

(** An unfilled white square on the sample page: the path gets the
    rectangle, the paint history stays empty, also after a text run with
    an underline. *)
Example unfilled_square_is_not_drawn :
  let w := ScreenCanvas.drawRect 0 0 10 10 "#ffffff" false sample_world in
  painted (ctx w) = []
  /\ path (ctx w) = [SegRect 0 0 15 15]
  /\ map op_coords
         (painted_by [DDrawText [97] 10 12 6 0 0 false true false false] w)
     = [[0; 18]; [0; 13; 9; 13]].
Proof. vm_compute. repeat split. Qed.

(** ** The render queue *)

Lemma fire_keeps_render_queue t w :
  screen (fire t w) = screen w
  /\ rafCallbacks (host (fire t w)) = rafCallbacks (host w).
Proof.
  unfold fire. destruct (armed (fst t) w); split; reflexivity.
Qed.

Lemma advance_keeps_render_queue ms w :
  screen (advance ms w) = screen w
  /\ rafCallbacks (host (advance ms w)) = rafCallbacks (host w).
Proof.
  unfold advance.
  generalize (sort_by_due
                (List.filter (fun t => snd t <=? now (host w) + Z.max 0 ms)
                             (timers (host w)))).
  intros l. cbn [with_host screen host rafCallbacks set_now].
  revert w. induction l as [|t l IH]; intros w; cbn [fold_left].
  - split; reflexivity.
  - destruct (IH (fire t w)) as [E1 E2].
    destruct (fire_keeps_render_queue t w) as [F1 F2].
    rewrite E1, E2, F1, F2. split; reflexivity.
Qed.

Lemma step_keeps_render_queue w e :
  match e with
  | EvFrame => True
  | EvMessage (MDraw d) => step w e = ScreenCanvas.enqueue d w
  | _ => screen (step w e) = screen w
         /\ rafCallbacks (host (step w e)) = rafCallbacks (host w)
  end.
Proof.
  destruct e as [m| | | | | | | | | |]; try exact I;
    try (cbn; split; reflexivity).
  - destruct m; try reflexivity; cbn;
      unfold ScreenCanvas.onVimInit, ScreenCanvas.onVimExit,
        ResizeHandler.onVimInit, InputHandler.onVimInit, addEventListener;
      repeat match goal with
             | |- context [if ?b then _ else _] => destruct b
             end; split; reflexivity.
  - cbn. destruct (listening OnInputKeydown w); [|split; reflexivity].
    unfold InputHandler.onKeydown.
    match goal with |- context [if ?b then _ else _] => destruct b end;
      split; reflexivity.
  - cbn. destruct (listening _ w); split; reflexivity.
  - cbn. destruct (listening _ w); split; reflexivity.
  - cbn. destruct (listening _ w); split; reflexivity.
  - cbn. destruct (listening _ w); [|split; reflexivity].
    unfold ResizeHandler.onResize.
    destruct (bounceTimerToken (resizer w)); split; reflexivity.
  - apply advance_keeps_render_queue.
Qed.

Lemma applyQueue_keeps_render_queue q w :
  let w' := world_of (ScreenCanvas.applyQueue q w) in
  rafCallbacks (host w') = rafCallbacks (host w)
  /\ queue (screen w') = queue (screen w)
  /\ rafScheduled (screen w') = rafScheduled (screen w).
Proof.
  cbn zeta. split; [|split].
  - apply (applyQueue_preserves (fun w => rafCallbacks (host w))).
    apply apply_rafCallbacks.
  - apply (applyQueue_preserves (fun w => queue (screen w))).
    intros m w0. apply apply_host.
  - apply (applyQueue_preserves (fun w => rafScheduled (screen w))).
    intros m w0. apply apply_host.
Qed.

(** One run of the refresh callback: when the loop ends the queue and
    the flag are reset; when an instruction throws they are not. *)
Lemma settle_onAnimationFrame w :
  settle (ScreenCanvas.onAnimationFrame w)
  = match ScreenCanvas.applyQueue (queue (screen w)) w with
    | Normal wf =>
        with_screen (set_rafScheduled false) (with_screen (set_queue []) wf)
    | Throw e wf => call (Uncaught e) wf
    end.
Proof.
  unfold ScreenCanvas.onAnimationFrame.
  destruct (ScreenCanvas.applyQueue (queue (screen w)) w); reflexivity.
Qed.

Lemma frame_of_scheduled w :
  rafCallbacks (host w) = 1%nat ->
  frame w
  = settle (ScreenCanvas.onAnimationFrame (with_host (set_rafCallbacks 0) w)).
Proof. intros Hc. unfold frame. rewrite Hc. reflexivity. Qed.

Lemma frame_of_idle w : rafCallbacks (host w) = 0%nat -> frame w = w.
Proof.
  intros Hc. unfold frame. rewrite Hc. cbn.
  destruct w as [h c wk rs sc]. destruct h. cbn in *. subst. reflexivity.
Qed.

Lemma frame_consistent w :
  raf_consistent w ->
  raf_consistent (frame w) /\ rafCallbacks (host (frame w)) = 0%nat.
Proof.
  intros Hcons. pose proof Hcons as [Hle Hidle].
  destruct (rafCallbacks (host w)) as [|[|n]] eqn:Hc; [| |lia].
  - rewrite (frame_of_idle w Hc). split; [exact Hcons|exact Hc].
  - rewrite (frame_of_scheduled w Hc), settle_onAnimationFrame.
    set (w1 := with_host (set_rafCallbacks 0) w).
    destruct (applyQueue_keeps_render_queue (queue (screen w1)) w1)
      as [A [B C]].
    destruct (ScreenCanvas.applyQueue (queue (screen w1)) w1) as [wf|e wf];
      cbn [world_of] in A, B, C; unfold raf_consistent; cbn; rewrite A; cbn.
    + split; [split; [lia|intros _; split; reflexivity]|reflexivity].
    + split; [split; [lia|]|reflexivity].
      rewrite C. intros Hf. destruct (Hidle Hf) as [H0 _]. discriminate.
Qed.

Lemma enqueue_consistent d w :
  raf_consistent w ->
  raf_consistent (ScreenCanvas.enqueue d w)
  /\ rafScheduled (screen (ScreenCanvas.enqueue d w)) = true
  /\ rafCallbacks (host (ScreenCanvas.enqueue d w))
     = (if rafScheduled (screen w) then rafCallbacks (host w) else 1%nat)
  /\ queue (screen (ScreenCanvas.enqueue d w)) = queue (screen w) ++ [d].
Proof.
  intros [Hle Hidle]. unfold raf_consistent, ScreenCanvas.enqueue.
  destruct (rafScheduled (screen w)) eqn:Hs; cbn; rewrite ?Hs.
  - repeat split; try reflexivity; try discriminate; exact Hle.
  - destruct (Hidle eq_refl) as [H0 _]. rewrite H0.
    repeat split; try reflexivity; try discriminate; lia.
Qed.

Lemma step_consistent w e : raf_consistent w -> raf_consistent (step w e).
Proof.
  intros Hc.
  pose proof (step_keeps_render_queue w e) as Hk.
  destruct e as [m| | | | | | | | | |];
    try (apply frame_consistent, Hc);
    try (destruct m; try (rewrite Hk; apply enqueue_consistent, Hc));
    destruct Hk as [Hs Hr]; unfold raf_consistent; rewrite Hs, Hr; exact Hc.
Qed.

Lemma boot_consistent b :
  raf_consistent (boot b) /\ rafScheduled (screen (boot b)) = false.
Proof.
  unfold raf_consistent, boot, create, addEventListener.
  match goal with |- context [if ?c then _ else _] => destruct c end;
    cbn; auto.
Qed.

Lemma run_app w es1 es2 : run w (es1 ++ es2) = run (run w es1) es2.
Proof. unfold run. apply fold_left_app. Qed.

Lemma run_consistent es : forall w, raf_consistent w -> raf_consistent (run w es).
Proof.
  induction es as [|e es IH]; intros w Hc; [exact Hc|].
  cbn. apply IH, step_consistent, Hc.
Qed.

(** Between refreshes the queue grows by the draw instructions received,
    in order; the flag is set, and a callback registered, once one has
    been received. *)
Lemma run_between_frames es :
  forall w,
    no_frame es = true -> raf_consistent w ->
    queue (screen (run w es)) = queue (screen w) ++ draws es
    /\ rafScheduled (screen (run w es))
       = rafScheduled (screen w)
         || match draws es with [] => false | _ => true end
    /\ rafCallbacks (host (run w es))
       = (if rafScheduled (screen w) then rafCallbacks (host w)
          else match draws es with
               | [] => rafCallbacks (host w)
               | _ => 1%nat
               end).
Proof.
  induction es as [|e es IH]; intros w Hn Hc.
  - cbn. rewrite app_nil_r, orb_false_r.
    destruct (rafScheduled (screen w)); auto.
  - cbn in Hn. apply andb_true_iff in Hn. destruct Hn as [He Hn].
    cbn [run fold_left]. fold (run (step w e) es).
    destruct (IH (step w e) Hn (step_consistent w e Hc)) as [Q [S R]].
    rewrite Q, S, R.
    pose proof (step_keeps_render_queue w e) as Hk.
    destruct e as [m| | | | | | | | | |]; try discriminate;
      try (destruct m as [event| | | |]);
      try (rewrite Hk;
           destruct (enqueue_consistent event w Hc) as [_ [S' [R' Q']]];
           rewrite Q', S', R'; cbn [draws flat_map app];
           rewrite <- app_assoc; cbn; rewrite orb_true_r;
           destruct (rafScheduled (screen w)); auto; fail);
      destruct Hk as [Hs Hr]; rewrite Hs, Hr; cbn [draws flat_map app]; auto.
Qed.

(** C1 (as amended).  At any time at most one refresh callback is
    registered, and an enqueue made while the flag is set registers none.
    Take the events between one display refresh and the next, at least one
    draw message among them, the renderer being idle after the first
    refresh: at the second refresh one callback is registered and the
    queue holds the instructions received, in the order received.  If none
    of them throws when they are applied in that order, the refresh runs
    one flush, which applies all of them in that order, then empties the
    queue and clears the scheduled flag, and no callback is left
    registered. *)
Theorem render_queue_one_flush_per_frame :
  forall (b : Boot) (es1 es2 : list Event),
    let w0 := run (boot b) (es1 ++ [EvFrame]) in
    let w1 := run w0 es2 in
    let wq := with_host (set_rafCallbacks 0) w1 in
    let w2 := step w1 EvFrame in
    no_frame es2 = true ->
    draws es2 <> [] ->
    rafScheduled (screen w0) = false ->
    returns (ScreenCanvas.applyQueue (draws es2) wq) = true ->
    (forall es, (rafCallbacks (host (run (boot b) es)) <= 1)%nat)
    /\ (forall w m,
          rafScheduled (screen w) = true ->
          rafCallbacks (host (ScreenCanvas.enqueue m w))
          = rafCallbacks (host w))
    /\ queue (screen w1) = draws es2
    /\ rafCallbacks (host w1) = 1%nat
    /\ w2 = with_screen (set_rafScheduled false)
              (with_screen (set_queue []) (applied (draws es2) wq))
    /\ queue (screen w2) = []
    /\ rafScheduled (screen w2) = false
    /\ rafCallbacks (host w2) = 0%nat.
Proof.
  intros b es1 es2 w0 w1 wq w2 Hn Hd S0 Hret.
  assert (Hb : forall es, raf_consistent (run (boot b) es)).
  { intros es. apply run_consistent, boot_consistent. }
  assert (H0 : raf_consistent w0) by apply Hb.
  destruct (proj2 H0 S0) as [R0 Q0].
  destruct (run_between_frames es2 w0 Hn H0) as [Q1 [S1 R1]].
  fold w1 in Q1, S1, R1. rewrite Q0 in Q1. rewrite S0 in S1, R1.
  cbn in Q1, S1.
  assert (R1' : rafCallbacks (host w1) = 1%nat).
  { rewrite R1. destruct (draws es2); [contradiction|reflexivity]. }
  assert (E2 : w2 = with_screen (set_rafScheduled false)
                      (with_screen (set_queue []) (applied (draws es2) wq))).
  { subst w2. cbn [step]. rewrite (frame_of_scheduled w1 R1').
    rewrite settle_onAnimationFrame. fold wq.
    change (queue (screen wq)) with (queue (screen w1)). rewrite Q1.
    destruct (ScreenCanvas.applyQueue (draws es2) wq) as [wf|e wf] eqn:E;
      [|discriminate].
    rewrite (applyQueue_normal _ _ _ E). reflexivity. }
  split; [|split; [|split; [|split; [|split]]]].
  - intros es. apply Hb.
  - intros w m Hs. unfold ScreenCanvas.enqueue. rewrite Hs. reflexivity.
  - exact Q1.
  - exact R1'.
  - exact E2.
  - rewrite E2. cbn. repeat split.
    destruct (frame_consistent w1 (run_consistent es2 w0 H0)) as [_ F].
    fold (step w1 EvFrame) in F. fold w2 in F. rewrite E2 in F. exact F.
Qed.

(** Three draw messages (a filled rectangle, a text run, an inversion)
    arrive before the next refresh: one flush paints them in that order. *)
Lemma render_queue_one_flush_per_frame_witness :
  let es2 := [EvMessage (MDraw (DDrawRect 0 0 2 2 "#000" true));
              EvMessage (MDraw (DDrawText [97] 1 1 1 0 1 false false false
                                          false));
              EvMessage (MDraw (DInvertRect 0 0 2 2))] in
  let w0 := run sample_world ([] ++ [EvFrame]) in
  let w1 := run w0 es2 in
  no_frame es2 = true
  /\ draws es2 <> []
  /\ rafScheduled (screen w0) = false
  /\ returns (ScreenCanvas.applyQueue
                (draws es2) (with_host (set_rafCallbacks 0) w1)) = true
  /\ queue (screen w1) = draws es2
  /\ rafCallbacks (host w1) = 1%nat
  /\ queue (screen (step w1 EvFrame)) = []
  /\ map op_coords (painted (ctx (step w1 EvFrame)))
     = [[0; 0; 3; 3]; [0; 3]; [0; 0]].
Proof.
  intros es2 w0 w1.
  assert (Hn : no_frame es2 = true) by reflexivity.
  assert (Hd : draws es2 <> []) by discriminate.
  assert (Hs : rafScheduled (screen w0) = false) by reflexivity.
  assert (Hr : returns (ScreenCanvas.applyQueue
                          (draws es2) (with_host (set_rafCallbacks 0) w1))
               = true) by reflexivity.
  pose proof (render_queue_one_flush_per_frame sample_boot [] es2 Hn Hd Hs Hr)
    as [_ [_ [Q [R [_ [Q2 _]]]]]].
  split; [exact Hn|]. split; [exact Hd|]. split; [exact Hs|].
  split; [exact Hr|]. split; [exact Q|].
  split; [exact R|]. split; [exact Q2|].
  vm_compute. reflexivity.
Defined.

(** C1 (as stated) fails when a queued instruction throws.  On the sample
    page (ratio 3/2) the inversion of a rectangle half a logical pixel
    wide asks for an image of device width [floor(0.75) = 0], which
    [getImageData] refuses with an exception: the flush is left before it
    applies the rectangle that follows and before it resets the queue and
    the flag. *)
Lemma throwing_instruction_stops_the_flush :
  let w1 := run sample_world
                [EvFrame;
                 EvMessage (MDraw (DInvertRect 0 0 (1 # 2) (1 # 2)));
                 EvMessage (MDraw (DDrawRect 0 0 2 2 "#000" true))] in
  ~ flushes_whole_queue w1
  /\ queue (screen (step w1 EvFrame)) = queue (screen w1)
  /\ rafScheduled (screen (step w1 EvFrame)) = true
  /\ painted (ctx (step w1 EvFrame)) = [].
Proof.
  intros w1. split.
  - unfold flushes_whole_queue. intros [_ [Hq _]].
    vm_compute in Hq. discriminate Hq.
  - vm_compute. repeat split.
Qed.

(** ** Fatal messages *)

(** C4 (as amended).  A [fatal] message is shown to the user with [alert]
    and the handler is left by an exception; a message of an unknown kind
    leaves the handler by an exception.  In both cases nothing else
    happens: the listeners stay registered, timers, queue, worker and
    resize handler are untouched, and a later key event that is not
    redundant is still forwarded to the worker. *)
Theorem fatal_message_only_aborts_handler :
  forall (w : World) (message kind : string) (e : KeyboardEvent),
    listening OnInputKeydown w = true ->
    ~ redundant_key e ->
    let t := now (host w) in
    let wf := step w (EvMessage (MFatal message)) in
    let wo := step w (EvMessage (MOther kind)) in
    trace (host wf) = trace (host w) ++ [(t, Alert message); (t, Uncaught message)]
    /\ trace (host wo)
       = trace (host w)
         ++ [(t, Uncaught
                   "FATAL: Unexpected message from worker: [object Object]")]
    /\ listeners (host wf) = listeners (host w)
    /\ listeners (host wo) = listeners (host w)
    /\ timers (host wf) = timers (host w)
    /\ timers (host wo) = timers (host w)
    /\ (ctx wf, worker wf, resizer wf, screen wf)
       = (ctx w, worker w, resizer w, screen w)
    /\ (ctx wo, worker wo, resizer wo, screen wo)
       = (ctx w, worker w, resizer w, screen w)
    /\ posted (trace (host (step wf (EvKeydown e))))
       = posted (trace (host w))
         ++ [(t, MKey (ev_code e) (ev_keyCode e) (ev_key e) (ev_ctrlKey e)
                      (ev_shiftKey e) (ev_altKey e) (ev_metaKey e))]
    /\ posted (trace (host (step wo (EvKeydown e))))
       = posted (trace (host w))
         ++ [(t, MKey (ev_code e) (ev_keyCode e) (ev_key e) (ev_ctrlKey e)
                      (ev_shiftKey e) (ev_altKey e) (ev_metaKey e))].
Proof.
  intros w message kind e Hl Hr t wf wo.
  assert (Tf : trace (host wf)
               = trace (host w) ++ [(t, Alert message); (t, Uncaught message)]).
  { subst wf. cbn. rewrite <- app_assoc. reflexivity. }
  assert (To : trace (host wo)
               = trace (host w)
                 ++ [(t, Uncaught
                           "FATAL: Unexpected message from worker: [object Object]")])
    by reflexivity.
  assert (Hwf : listening OnInputKeydown wf = true) by exact Hl.
  assert (Hwo : listening OnInputKeydown wo = true) by exact Hl.
  split; [exact Tf|]. split; [exact To|].
  do 6 (split; [reflexivity|]).
  cbn [step]. rewrite Hwf, Hwo.
  rewrite !(onKeydown_forwarded e _ Hr).
  unfold VimWorker.sendMessage, VimWorker.awakeWorkerThread.
  cbn [call with_host with_worker host trace set_trace now].
  rewrite Tf, To, <- !app_assoc, !posted_app. cbn.
  rewrite ?app_nil_r. split; reflexivity.
Qed.

Lemma fatal_message_only_aborts_handler_witness :
  listening OnInputKeydown sample_session = true
  /\ ~ redundant_key key_a
  /\ posted (trace (host (step (step sample_session
                                    (EvMessage (MFatal "out of memory")))
                              (EvKeydown key_a))))
     = posted (trace (host sample_session))
       ++ [(0, MKey "KeyA" 65 "a" false false false false)].
Proof.
  assert (Hl : listening OnInputKeydown sample_session = true) by reflexivity.
  assert (Hr : ~ redundant_key key_a).
  { intros [Hlen _]. cbn in Hlen. lia. }
  split; [exact Hl|]. split; [exact Hr|].
  destruct (fatal_message_only_aborts_handler
              sample_session "out of memory" "bogus" key_a Hl Hr)
    as [_ [_ [_ [_ [_ [_ [_ [_ [P _]]]]]]]]].
  exact P.
Defined.

(** C4 (as stated) fails: after [fatal] on the started sample page the key
    listener is still registered. *)
Lemma fatal_leaves_session_running :
  ~ tears_down (MFatal "out of memory") sample_session.
Proof.
  intros H. destruct (H []) as [Hk _].
  vm_compute in Hk. discriminate.
Qed.

(** The same run goes on to post a key message after the fatal one. *)
Example key_forwarded_after_fatal :
  posted (trace (host (run sample_session
                           [EvMessage (MFatal "out of memory");
                            EvKeydown key_a])))
  = [(0, MStart 600 800 false); (0, MKey "KeyA" 65 "a" false false false false)]
  /\ alerts (trace (host (run sample_session
                              [EvMessage (MFatal "out of memory")])))
     = ["out of memory"].
Proof. split; reflexivity. Qed.

(** ** The resize debounce *)

Lemma onResize_arms w p :
  resize_timer w p ->
  resize_timer (ResizeHandler.onResize w) (Some 0)
  /\ trace (host (ResizeHandler.onResize w)) = trace (host w)
  /\ now (host (ResizeHandler.onResize w)) = now (host w)
  /\ canvasRect (host (ResizeHandler.onResize w)) = canvasRect (host w)
  /\ listeners (host (ResizeHandler.onResize w)) = listeners (host w).
Proof.
  intros Hp. unfold ResizeHandler.onResize.
  destruct p as [e|]; cbn [resize_timer] in Hp.
  - destruct Hp as [He [tok [Ht Hl]]]. rewrite Ht.
    cbn. rewrite Hl. cbn. rewrite Z.eqb_refl. cbn.
    repeat split; try lia.
    eexists. split; [reflexivity|]. f_equal. f_equal. lia.
  - destruct Hp as [Ht Hl]. rewrite Ht.
    cbn. rewrite Hl. cbn.
    repeat split; try lia.
    eexists. split; [reflexivity|]. f_equal. f_equal. lia.
Qed.

Lemma advance_before_due w e ms :
  resize_timer w (Some e) ->
  e + Z.max 0 ms < 1000 ->
  advance ms w = with_host (set_now (now (host w) + Z.max 0 ms)) w.
Proof.
  intros [He [tok [Ht Hl]]] Hlt. unfold advance. rewrite Hl. cbn.
  destruct (Z.leb_spec (now (host w) - e + 1000) (now (host w) + Z.max 0 ms));
    [lia|]. reflexivity.
Qed.

Lemma advance_idle w ms :
  timers (host w) = [] ->
  advance ms w = with_host (set_now (now (host w) + Z.max 0 ms)) w.
Proof. intros Hl. unfold advance. rewrite Hl. reflexivity. Qed.

Lemma advance_fires w e ms :
  resize_timer w (Some e) ->
  1000 <= e + Z.max 0 ms ->
  let w' := advance ms w in
  resize_timer w' None
  /\ trace (host w')
     = trace (host w)
       ++ [(now (host w) - e + 1000, PostMessage (resize_of w))]
  /\ now (host w') = now (host w) + Z.max 0 ms
  /\ canvasRect (host w') = canvasRect (host w)
  /\ listeners (host w') = listeners (host w)
  /\ elemHeight (resizer w') = rect_height (canvasRect (host w))
  /\ elemWidth (resizer w') = rect_width (canvasRect (host w)).
Proof.
  intros [He [tok [Ht Hl]]] Hge. unfold advance. rewrite Hl. cbn.
  destruct (Z.leb_spec (now (host w) - e + 1000) (now (host w) + Z.max 0 ms));
    [|lia].
  cbn. unfold fire, armed. cbn. rewrite Hl. cbn. rewrite Z.eqb_refl. cbn.
  rewrite Hl. cbn. rewrite Z.eqb_refl. cbn.
  replace (Z.max (now (host w)) (now (host w) - e + 1000))
    with (now (host w) - e + 1000) by lia.
  repeat split; reflexivity.
Qed.

Lemma listening_same l w w' :
  listeners (host w') = listeners (host w) -> listening l w' = listening l w.
Proof. unfold listening. intros ->. reflexivity. Qed.

(** During a burst nothing is posted and the timer follows the latest
    notification. *)
Lemma burst_is_silent es :
  forall w p,
    listening OnWindowResize w = true ->
    resize_timer w p ->
    within_window p es = true ->
    resize_timer (run w es) (window_after p es)
    /\ listening OnWindowResize (run w es) = true
    /\ trace (host (run w es)) = trace (host w)
    /\ now (host (run w es)) = now (host w) + slept es.
Proof.
  induction es as [|ev es IH]; intros w p Hl Hp Hw.
  - cbn [run fold_left slept fold_right window_after]. rewrite Z.add_0_r. auto.
  - destruct ev; try discriminate; cbn [within_window] in Hw;
      cbn [run fold_left window_after slept fold_right];
      fold (run (step w EvWindowResize) es);
      fold (slept es).
    + (* a notification *)
      cbn [step]. rewrite Hl.
      destruct (onResize_arms w p Hp) as [Hp' [Ht [Hn [_ Hls]]]].
      destruct (IH (ResizeHandler.onResize w) (Some 0)) as [A [B [C D]]];
        try assumption.
      { rewrite (listening_same _ w); assumption. }
      fold (run (ResizeHandler.onResize w) es).
      rewrite C, D, Ht, Hn. auto.
    + (* the canvas box changes *)
      fold (run (step w (EvLayout rect)) es).
      destruct (IH (step w (EvLayout rect)) p) as [A [B [C D]]];
        try assumption.
      rewrite C, D. auto.
    + (* a pause *)
      fold (run (step w (EvSleep ms)) es).
      destruct p as [e|].
      * apply andb_true_iff in Hw. destruct Hw as [Hlt Hw].
        apply Z.ltb_lt in Hlt.
        cbn [step option_map]. rewrite (advance_before_due w e ms Hp Hlt).
        destruct (IH (with_host (set_now (now (host w) + Z.max 0 ms)) w)
                     (Some (e + Z.max 0 ms))) as [A [B [C D]]];
          try assumption.
        { destruct Hp as [He [tok [Ht Htm]]]. cbn. split; [lia|].
          exists tok. split; [exact Ht|]. rewrite Htm. f_equal. f_equal. lia. }
        rewrite C, D. cbn [with_host host now set_now trace].
        rewrite Z.add_assoc. auto.
      * destruct Hp as [Ht Htm].
        cbn [step option_map]. rewrite (advance_idle w ms Htm).
        destruct (IH (with_host (set_now (now (host w) + Z.max 0 ms)) w) None)
          as [A [B [C D]]]; try assumption.
        { split; assumption. }
        rewrite C, D. cbn [with_host host now set_now trace].
        rewrite Z.add_assoc. auto.
Qed.

Lemma tail_is_silent es :
  forall w e,
    resize_timer w (Some e) ->
    no_resize es = true ->
    within_window (Some e) es = true ->
    resize_timer (run w es) (Some (e + slept es))
    /\ trace (host (run w es)) = trace (host w)
    /\ now (host (run w es)) = now (host w) + slept es
    /\ listeners (host (run w es)) = listeners (host w)
    /\ canvasRect (host (run w es)) = rect_after es (canvasRect (host w)).
Proof.
  induction es as [|ev es IH]; intros w e Hp Hn Hw.
  - cbn [run fold_left slept fold_right rect_after]. rewrite !Z.add_0_r. auto.
  - destruct ev; try discriminate; cbn [within_window] in Hw;
      cbn [no_resize forallb] in Hn; try discriminate;
      cbn [run fold_left slept fold_right]; fold (slept es).
    + fold (run (step w (EvLayout rect)) es).
      destruct (IH (step w (EvLayout rect)) e) as [A [B [C [D E]]]];
        try assumption.
      rewrite B, C, D, E. auto.
    + fold (run (step w (EvSleep ms)) es).
      apply andb_true_iff in Hw. destruct Hw as [Hlt Hw].
      apply Z.ltb_lt in Hlt.
      cbn [step]. rewrite (advance_before_due w e ms Hp Hlt).
      destruct (IH (with_host (set_now (now (host w) + Z.max 0 ms)) w)
                   (e + Z.max 0 ms)) as [A [B [C [D E]]]];
        try assumption.
      { destruct Hp as [He [tok [Ht Htm]]]. cbn. split; [lia|].
        exists tok. split; [exact Ht|]. rewrite Htm. f_equal. f_equal. lia. }
      rewrite B, C, D, E.
      cbn [with_host host now set_now trace listeners canvasRect rect_after
           fold_left].
      rewrite !Z.add_assoc. auto.
Qed.

Lemma rect_after_no_layout es :
  forall r, no_layout es = true -> rect_after es r = r.
Proof.
  induction es as [|ev es IH]; intros r Hn; [reflexivity|].
  cbn in Hn. apply andb_true_iff in Hn. destruct Hn as [He Hn].
  destruct ev; try discriminate; cbn; apply IH, Hn.
Qed.

Lemma within_window_app es1 :
  forall p es2,
    within_window p (es1 ++ es2)
    = within_window p es1 && within_window (window_after p es1) es2.
Proof.
  induction es1 as [|ev es1 IH]; intros p es2; [reflexivity|].
  destruct ev; try reflexivity; cbn [app within_window window_after];
    try apply IH.
  destruct p as [e|]; cbn [option_map]; [|apply IH].
  rewrite IH, andb_assoc. reflexivity.
Qed.

Lemma window_after_app es1 :
  forall p es2,
    window_after p (es1 ++ es2) = window_after (window_after p es1) es2.
Proof.
  induction es1 as [|ev es1 IH]; intros p es2; [reflexivity|].
  destruct ev; cbn [app window_after]; apply IH.
Qed.

(** C2 (as amended).  Start idle with the resize listener registered.
    Through a burst of notifications less than 1000 ms apart nothing is
    posted; each notification replaces the pending timer by a new one, so
    the last leaves exactly one, due 1000 ms later.  When that time has
    passed exactly one [resize] message has been posted, stamped 1000 ms
    after the last notification, and it carries the height and width the
    canvas box has when the timer fires; these are the ones of the last
    notification if the box did not change since. *)
Theorem resize_burst_sends_one_message :
  forall (w0 : World) (burst tail : list Event) (ms : Z),
    listening OnWindowResize w0 = true ->
    resize_timer w0 None ->
    within_window None burst = true ->
    no_resize tail = true ->
    within_window (Some 0) tail = true ->
    1000 <= slept tail + Z.max 0 ms ->
    let wn := run w0 (burst ++ [EvWindowResize]) in
    let w1 := run wn tail in
    let w2 := step w1 (EvSleep ms) in
    resize_timer wn (Some 0)
    /\ trace (host w1) = trace (host w0)
    /\ posted (trace (host w2))
       = posted (trace (host w0)) ++ [(now (host wn) + 1000, resize_of w1)]
    /\ canvasRect (host w1) = rect_after tail (canvasRect (host wn))
    /\ (no_layout tail = true -> resize_of w1 = resize_of wn)
    /\ resize_timer w2 None.
Proof.
  intros w0 burst tail ms Hl H0 Hb Hnr Ht Hms wn w1 w2.
  assert (Hb' : within_window None (burst ++ [EvWindowResize]) = true).
  { rewrite within_window_app, Hb. reflexivity. }
  destruct (burst_is_silent (burst ++ [EvWindowResize]) w0 None Hl H0 Hb')
    as [Pn [Ln [Tn Nn]]].
  rewrite window_after_app in Pn. cbn [window_after] in Pn.
  fold wn in Pn, Ln, Tn, Nn.
  destruct (tail_is_silent tail wn 0 Pn Hnr Ht) as [P1 [T1 [N1 [L1 R1]]]].
  fold w1 in P1, T1, N1, L1, R1. rewrite Z.add_0_l in P1.
  assert (Hms' : 1000 <= slept tail + Z.max 0 ms) by exact Hms.
  destruct (advance_fires w1 (slept tail) ms P1 Hms') as [P2 [T2 _]].
  split; [exact Pn|]. split; [rewrite T1; exact Tn|].
  split.
  { subst w2. cbn [step]. rewrite T2, posted_app, T1, Tn, N1.
    cbn. f_equal. f_equal. f_equal. lia. }
  split; [exact R1|]. split; [|exact P2].
  intros Hnl. unfold resize_of. rewrite R1, rect_after_no_layout; auto.
Qed.

(** Five notifications 100 ms apart, the last with the box at 800 by
    600: one message, 1000 ms after the last notification. *)
Lemma resize_burst_sends_one_message_witness :
  listening OnWindowResize sample_session = true
  /\ resize_timer sample_session None
  /\ within_window None sample_burst = true
  /\ no_resize [] = true
  /\ within_window (Some 0) [] = true
  /\ 1000 <= slept [] + Z.max 0 1000
  /\ posted (trace (host (step (run (run sample_session
                                         (sample_burst ++ [EvWindowResize]))
                                    [])
                               (EvSleep 1000))))
     = [(0, MStart 600 800 false); (1400, MResize 600 800)].
Proof.
  assert (Hl : listening OnWindowResize sample_session = true) by reflexivity.
  assert (H0 : resize_timer sample_session None) by (split; reflexivity).
  assert (Hb : within_window None sample_burst = true) by reflexivity.
  assert (Hn : no_resize [] = true) by reflexivity.
  assert (Ht : within_window (Some 0) [] = true) by reflexivity.
  assert (Hs : 1000 <= slept [] + Z.max 0 1000) by (cbn; lia).
  destruct (resize_burst_sends_one_message
              sample_session sample_burst [] 1000 Hl H0 Hb Hn Ht Hs)
    as [_ [_ [P _]]].
  repeat (split; [assumption|]).
  rewrite P. reflexivity.
Defined.

(** C2 (as stated) fails when the box changes after the last
    notification: notified at 800 by 600, resized to 900 by 700 half a
    second later without a notification, the message says 900 by 700. *)
Lemma resize_message_carries_geometry_at_firing :
  ~ carries_notified_geometry sample_session []
      [EvSleep 500; EvLayout (mkDOMRect 700 900)] 500.
Proof.
  unfold carries_notified_geometry. intros H.
  vm_compute in H. discriminate.
Qed.

(** ** Teardown of the resize handler *)

Lemma listening_removed l l' w :
  listening l (removeEventListener l' w)
  = if Listener_eqb l' l then false else listening l w.
Proof.
  unfold listening, removeEventListener. cbn.
  induction (listeners (host w)) as [|x xs IH]; cbn.
  - destruct (Listener_eqb l' l); reflexivity.
  - destruct l, l', x; cbn in *; try exact IH; rewrite ?IH; reflexivity.
Qed.

(** C8 (as amended).  Teardown removes the resize listener and nothing
    else: a timer that is pending stays armed and its token stays stored.
    After teardown a resize notification is not processed; the pending
    timer fires when due and posts one [resize] message, after which the
    handler is idle and further notifications still do nothing. *)
Theorem teardown_leaves_timer_armed :
  forall (w : World) (e ms : Z),
    resize_timer w (Some e) ->
    1000 <= e + Z.max 0 ms ->
    let wx := step w (EvMessage MExit) in
    let w3 := step wx (EvSleep ms) in
    listening OnWindowResize wx = false
    /\ timers (host wx) = timers (host w)
    /\ bounceTimerToken (resizer wx) = bounceTimerToken (resizer w)
    /\ step wx EvWindowResize = wx
    /\ posted (trace (host w3))
       = posted (trace (host w))
         ++ [(now (host w) - e + 1000, resize_of w)]
    /\ resize_timer w3 None
    /\ step w3 EvWindowResize = w3.
Proof.
  intros w e ms Hp Hms wx w3.
  assert (Lx : listening OnWindowResize wx = false).
  { subst wx. cbn [step VimWasm.onMessage settle].
    unfold ScreenCanvas.onVimExit, InputHandler.onVimExit,
      ResizeHandler.onVimExit.
    rewrite !listening_removed. reflexivity. }
  assert (Px : resize_timer wx (Some e)) by exact Hp.
  destruct (advance_fires wx e ms Px Hms) as [P3 [T3 [_ [_ [L3 _]]]]].
  assert (Lw3 : listening OnWindowResize w3 = false).
  { subst w3. cbn [step]. rewrite (listening_same _ wx); assumption. }
  split; [exact Lx|]. split; [reflexivity|]. split; [reflexivity|].
  split; [cbn [step]; rewrite Lx; reflexivity|].
  split.
  { subst w3. cbn [step]. rewrite T3, posted_app. reflexivity. }
  split; [exact P3|].
  cbn [step]. fold w3. rewrite Lw3. reflexivity.
Qed.

Lemma teardown_leaves_timer_armed_witness :
  let w := run sample_session [EvWindowResize; EvSleep 400] in
  resize_timer w (Some 400)
  /\ 1000 <= 400 + Z.max 0 600
  /\ posted (trace (host (step (step w (EvMessage MExit)) (EvSleep 600))))
     = [(0, MStart 600 800 false); (1000, MResize 600 800)].
Proof.
  intros w.
  assert (Hp : resize_timer w (Some 400)).
  { split; [lia|]. exists 1. split; reflexivity. }
  assert (Hm : 1000 <= 400 + Z.max 0 600) by (cbn; lia).
  destruct (teardown_leaves_timer_armed w 400 600 Hp Hm)
    as [_ [_ [_ [_ [P _]]]]].
  split; [exact Hp|]. split; [exact Hm|].
  rewrite P. reflexivity.
Defined.

(** C8 (as stated) fails: torn down right after a notification, the
    timer is still in the table. *)
Lemma teardown_does_not_cancel_timer :
  ~ cancels_on_teardown (run sample_session [EvWindowResize]).
Proof.
  intros [H _]. vm_compute in H. discriminate.
Qed.

(** The timer then fires and the message goes out after the teardown. *)
Example resize_posted_after_teardown :
  posted (trace (host (run sample_session
                           [EvWindowResize; EvMessage MExit; EvSleep 1000])))
  = [(0, MStart 600 800 false); (1000, MResize 600 800)].
Proof. reflexivity. Qed.

(** ** Inversion of a region *)

Section InversionLoop.

Local Open Scope nat_scope.

Lemma complementAt_length i data :
  length (ScreenCanvas.complementAt i data) = length data.
Proof.
  unfold ScreenCanvas.complementAt. destruct (data !! i); [|reflexivity].
  apply length_insert.
Qed.

Lemma complementAt_lookup i j (data : list Z) :
  ScreenCanvas.complementAt i data !! j
  = if decide (i = j) then (fun v => clamp8 (255 - v)) <$> data !! j
    else data !! j.
Proof.
  unfold ScreenCanvas.complementAt.
  destruct (decide (i = j)) as [->|Hne].
  - destruct (data !! j) as [v|] eqn:E.
    + cbn. apply list_lookup_insert_eq. eapply lookup_lt_Some, E.
    + cbn. exact E.
  - destruct (data !! i); [|reflexivity].
    apply list_lookup_insert_ne, Hne.
Qed.

Lemma invertLoop_lookup fuel :
  forall k (data : list Z) q r,
    length data <= 4 * k + 4 * fuel ->
    r < 4 ->
    ScreenCanvas.invertLoop fuel (length data) (4 * k) data !! (4 * q + r)
    = if q <? k then data !! (4 * q + r)
      else invert_channel r <$> data !! (4 * q + r).
Proof.
  induction fuel as [|fuel IH]; intros k data q r Hlen Hr.
  - cbn [ScreenCanvas.invertLoop].
    destruct (Nat.ltb_spec q k); [reflexivity|].
    rewrite lookup_ge_None_2 by lia. reflexivity.
  - cbn [ScreenCanvas.invertLoop].
    destruct (Nat.ltb_spec (4 * k) (length data)) as [Hin|Hout].
    + replace (4 * k + 3 + 1) with (4 * S k) by lia.
      set (data3 := ScreenCanvas.complementAt (4 * k + 2)
                      (ScreenCanvas.complementAt (4 * k + 1)
                         (ScreenCanvas.complementAt (4 * k) data))).
      assert (Hl3 : length data3 = length data).
      { subst data3. rewrite !complementAt_length. reflexivity. }
      rewrite <- Hl3.
      rewrite IH; [|rewrite Hl3; lia|exact Hr].
      subst data3. rewrite !complementAt_lookup.
      assert (Hcases : r = 0 \/ r = 1 \/ r = 2 \/ r = 3) by lia.
      destruct (Nat.ltb_spec q (S k)) as [Hq|Hq];
        destruct (Nat.ltb_spec q k) as [Hq'|Hq']; try lia;
        [| assert (q = k) by lia; subst q |];
        destruct Hcases as [-> | [-> | [-> | ->]]];
        repeat case_decide; try lia;
        try reflexivity; destruct (data !! _); reflexivity.
    + destruct (Nat.ltb_spec q k); [reflexivity|].
      rewrite lookup_ge_None_2 by lia. reflexivity.
Qed.

Lemma invertData_lookup (data : list Z) q r :
  r < 4 ->
  ScreenCanvas.invertData data !! (4 * q + r)
  = invert_channel r <$> data !! (4 * q + r).
Proof.
  intros Hr. unfold ScreenCanvas.invertData.
  change (ScreenCanvas.invertLoop (length data) (length data) 0 data)
    with (ScreenCanvas.invertLoop (length data) (length data) (4 * 0) data).
  rewrite invertLoop_lookup; [reflexivity|lia|exact Hr].
Qed.

Lemma flat_map_uniform_length {A B} (f : A -> list B) n (l : list A) :
  (forall a, length (f a) = n) -> length (flat_map f l) = length l * n.
Proof.
  intros Hf. induction l as [|a l IH]; [reflexivity|].
  cbn. rewrite length_app, Hf, IH. reflexivity.
Qed.

Lemma flat_map_uniform_lookup {A B} (f : A -> list B) n (l : list A) :
  (forall a, length (f a) = n) ->
  forall i j, j < n ->
    flat_map f l !! (i * n + j)
    = match l !! i with
      | Some a => f a !! j
      | None => None
      end.
Proof.
  intros Hf. induction l as [|a l IH]; intros i j Hj.
  - reflexivity.
  - cbn [flat_map]. destruct i as [|i].
    + cbn. apply lookup_app_l. rewrite Hf. exact Hj.
    + rewrite lookup_app_r by (rewrite Hf; lia).
      rewrite Hf. replace (S i * n + j - n) with (i * n + j) by lia.
      apply IH, Hj.
Qed.

Lemma readRect_lookup (c : Context2D) (X Y W H : Z) row col k :
  (0 <= W)%Z -> (0 <= H)%Z ->
  row < Z.abs_nat H -> col < Z.abs_nat W -> k < 4 ->
  img_data (Context2D.readRect X Y W H c)
    !! (4 * (row * Z.abs_nat W + col) + k)
  = pixel_bytes (read_pixel (bitmap c) (X + Z.of_nat col) (Y + Z.of_nat row))
      !! k.
Proof.
  intros HW HH Hrow Hcol Hk. unfold Context2D.readRect.
  destruct (Z.ltb_spec W 0); [lia|]. destruct (Z.ltb_spec H 0); [lia|].
  cbn [img_data].
  replace (4 * (row * Z.abs_nat W + col) + k)
    with (row * (Z.abs_nat W * 4) + (col * 4 + k)) by lia.
  rewrite (flat_map_uniform_lookup _ (Z.abs_nat W * 4)).
  - rewrite lookup_seq_lt by exact Hrow. cbn [Nat.add].
    rewrite (flat_map_uniform_lookup _ 4).
    + rewrite lookup_seq_lt by exact Hcol. reflexivity.
    + intros a. reflexivity.
    + exact Hk.
  - intros a. rewrite (flat_map_uniform_length _ 4), length_seq; [reflexivity|].
    intros b. reflexivity.
  - lia.
Qed.

Lemma inverted_pixel_at (c : Context2D) (X Y W H : Z) row col :
  (0 <= W)%Z -> (0 <= H)%Z ->
  row < Z.abs_nat H -> col < Z.abs_nat W ->
  let img := Context2D.readRect X Y W H c in
  let p := read_pixel (bitmap c) (X + Z.of_nat col) (Y + Z.of_nat row) in
  pixel_at (mkImageData (img_width img) (img_height img)
                        (ScreenCanvas.invertData (img_data img))) col row
  = mkPixel (clamp8 (255 - px_r p)) (clamp8 (255 - px_g p))
            (clamp8 (255 - px_b p)) (px_a p).
Proof.
  intros HW HH Hrow Hcol img p.
  assert (Hb : forall k, k < 4 ->
             ScreenCanvas.invertData (img_data img)
               !! (4 * (row * Z.abs_nat W + col) + k)
             = invert_channel k <$> pixel_bytes p !! k).
  { intros k Hk. rewrite invertData_lookup by exact Hk.
    subst img. rewrite readRect_lookup by assumption. reflexivity. }
  unfold pixel_at, byte_at. cbn [img_width img_data].
  change (img_width img) with (Z.abs_nat W).
  rewrite <- (Nat.add_0_r (4 * (row * Z.abs_nat W + col))) at 1.
  rewrite !Hb by lia. reflexivity.
Qed.

End InversionLoop.

Lemma clamp8_byte v : byte_ok v -> clamp8 (255 - v) = 255 - v.
Proof. unfold byte_ok, clamp8. lia. Qed.

Lemma complement_ok p : pixel_ok p -> pixel_ok (complement p).
Proof. unfold pixel_ok, byte_ok. cbn. lia. Qed.

Lemma complement_involutive p : complement (complement p) = p.
Proof.
  destruct p as [r g b a]. unfold complement. cbn. f_equal; lia.
Qed.

(** With a device extent other than zero the call returns. *)
Lemma invertRect_returns (x y wi h : number) (w : World) :
  device wi w <> 0 -> device h w <> 0 ->
  ScreenCanvas.invertRect x y wi h w
  = Normal (world_of (ScreenCanvas.invertRect x y wi h w)).
Proof.
  intros HW HH. unfold ScreenCanvas.invertRect, Context2D.getImageData.
  fold (device wi w) (device h w).
  destruct (Z.eqb_spec (device wi w) 0) as [E|_]; [contradiction|].
  destruct (Z.eqb_spec (device h w) 0) as [E|_]; [contradiction|].
  reflexivity.
Qed.

Lemma invertRect_bitmap (x y wi h : number) (w : World) (cx cy : Z) :
  0 < device wi w -> 0 < device h w ->
  (forall p, bitmap (ctx w) cx cy = Some p -> pixel_ok p) ->
  bitmap (ctx (world_of (ScreenCanvas.invertRect x y wi h w))) cx cy
  = if in_rect (device x w) (device y w) (device wi w) (device h w) cx cy
    then option_map complement (bitmap (ctx w) cx cy)
    else bitmap (ctx w) cx cy.
Proof.
  intros HW HH Hok.
  unfold ScreenCanvas.invertRect, Context2D.getImageData,
    Context2D.putImageData.
  fold (device x w) (device y w) (device wi w) (device h w).
  set (X := device x w) in *. set (Y := device y w) in *.
  set (W := device wi w) in *. set (H := device h w) in *.
  destruct (Z.eqb_spec W 0) as [E|_]; [lia|].
  destruct (Z.eqb_spec H 0) as [E|_]; [lia|].
  cbn [orb world_of with_ctx ctx set_surface bitmap img_width img_height].
  change (img_width (Context2D.readRect X Y W H (ctx w)))
    with (Z.abs_nat W).
  change (img_height (Context2D.readRect X Y W H (ctx w)))
    with (Z.abs_nat H).
  unfold in_rect.
  destruct (bitmap (ctx w) cx cy) as [p|] eqn:E.
  - destruct (Z.leb_spec 0 (cx - X)); destruct (Z.leb_spec X cx); try lia;
      cbn [andb]; [|reflexivity].
    destruct (Z.ltb_spec (cx - X) (Z.of_nat (Z.abs_nat W)));
      destruct (Z.ltb_spec cx (X + W)); try lia; cbn [andb]; [|reflexivity].
    destruct (Z.leb_spec 0 (cy - Y)); destruct (Z.leb_spec Y cy); try lia;
      cbn [andb]; [|reflexivity].
    destruct (Z.ltb_spec (cy - Y) (Z.of_nat (Z.abs_nat H)));
      destruct (Z.ltb_spec cy (Y + H)); try lia; [|reflexivity].
    cbn [option_map]. f_equal.
    pose proof (inverted_pixel_at (ctx w) X Y W H (Z.to_nat (cy - Y))
                                  (Z.to_nat (cx - X))) as Hp.
    cbn zeta in Hp. 
    change (img_width (Context2D.readRect X Y W H (ctx w)))
      with (Z.abs_nat W) in Hp.
    change (img_height (Context2D.readRect X Y W H (ctx w)))
      with (Z.abs_nat H) in Hp.
    rewrite Hp by lia.
    replace (X + Z.of_nat (Z.to_nat (cx - X))) with cx by lia.
    replace (Y + Z.of_nat (Z.to_nat (cy - Y))) with cy by lia.
    unfold read_pixel. rewrite E. cbn [default].
    destruct (Hok p eq_refl) as [Hr [Hg [Hb _]]].
    rewrite !clamp8_byte by assumption. reflexivity.
  - destruct ((X <=? cx) && (cx <? X + W) && (Y <=? cy) && (cy <? Y + H));
      reflexivity.
Qed.

(** C6.  On a bitmap of bytes, inverting a rectangle of positive device
    size returns normally and replaces every pixel of the bitmap inside it
    by its complement (each colour channel [v] by [255 - v], alpha as it
    was) and leaves the pixels outside alone; inverting the same rectangle
    again returns normally and gives back the original pixel
    everywhere. *)
Theorem invertRect_complements_and_restores :
  forall (x y wi h : number) (w : World) (cx cy : Z),
    bitmap_ok (bitmap (ctx w)) ->
    0 < device wi w ->
    0 < device h w ->
    let w1 := world_of (ScreenCanvas.invertRect x y wi h w) in
    let w2 := world_of (ScreenCanvas.invertRect x y wi h w1) in
    ScreenCanvas.invertRect x y wi h w = Normal w1
    /\ ScreenCanvas.invertRect x y wi h w1 = Normal w2
    /\ bitmap (ctx w1) cx cy
       = (if in_rect (device x w) (device y w) (device wi w) (device h w)
                     cx cy
          then option_map complement (bitmap (ctx w) cx cy)
          else bitmap (ctx w) cx cy)
    /\ bitmap (ctx w2) cx cy = bitmap (ctx w) cx cy.
Proof.
  intros x y wi h w cx cy Hok HW HH w1 w2.
  assert (D1 : forall v, device v w1 = device v w).
  { intros v. subst w1. unfold device, dpr.
    unfold ScreenCanvas.invertRect.
    destruct (Context2D.getImageData _ _ _ _ _); reflexivity. }
  split; [apply invertRect_returns; lia|].
  split; [apply invertRect_returns; rewrite D1; lia|].
  assert (H1 : bitmap (ctx w1) cx cy
               = if in_rect (device x w) (device y w) (device wi w)
                            (device h w) cx cy
                 then option_map complement (bitmap (ctx w) cx cy)
                 else bitmap (ctx w) cx cy).
  { apply invertRect_bitmap; try assumption. intros p. apply Hok. }
  split; [exact H1|].
  subst w2. rewrite invertRect_bitmap.
  - rewrite !D1, H1.
    destruct (in_rect _ _ _ _ cx cy); [|reflexivity].
    destruct (bitmap (ctx w) cx cy) as [p|]; [|reflexivity].
    cbn. rewrite complement_involutive. reflexivity.
  - rewrite D1. exact HW.
  - rewrite D1. exact HH.
  - intros p. rewrite H1.
    destruct (in_rect _ _ _ _ cx cy); [|apply Hok].
    destruct (bitmap (ctx w) cx cy) as [p0|] eqn:E; [|discriminate].
    cbn. intros [= <-]. apply complement_ok. eapply Hok, E.
Qed.

Lemma blank_ok W H : bitmap_ok (blank W H).
Proof.
  intros x y p. unfold blank.
  destruct ((0 <=? x) && (x <? W) && (0 <=? y) && (y <? H)); [|discriminate].
  intros [= <-]. unfold pixel_ok, byte_ok. cbn. lia.
Qed.

(** On the sample page (ratio 3/2, opaque black canvas) the logical
    rectangle of size 2 by 2 at the origin covers 3 by 3 device pixels:
    pixel (1, 1) turns white and then black again, pixel (3, 3) stays. *)
Lemma invertRect_complements_and_restores_witness :
  let w1 := world_of (ScreenCanvas.invertRect 0 0 2 2 sample_world) in
  let w2 := world_of (ScreenCanvas.invertRect 0 0 2 2 w1) in
  bitmap_ok (bitmap (ctx sample_world))
  /\ 0 < device 2 sample_world
  /\ bitmap (ctx sample_world) 1 1 = Some (mkPixel 0 0 0 255)
  /\ bitmap (ctx w1) 1 1 = Some (mkPixel 255 255 255 255)
  /\ bitmap (ctx w2) 1 1 = Some (mkPixel 0 0 0 255).
Proof.
  intros w1 w2.
  assert (Hok : bitmap_ok (bitmap (ctx sample_world))) by apply blank_ok.
  assert (Hd : 0 < device 2 sample_world) by reflexivity.
  destruct (invertRect_complements_and_restores
              0 0 2 2 sample_world 1 1 Hok Hd Hd) as [_ [_ [P1 P2]]].
  subst w1 w2. cbn zeta in P1, P2.
  split; [exact Hok|]. split; [exact Hd|]. split; [reflexivity|].
  split; [rewrite P1; reflexivity|rewrite P2; reflexivity].
Defined.

(** * Further properties *)

(** ** What each part of the event loop leaves alone *)
Lemma advance_preserves {A} (f : World -> A) :
  (forall t w, f (fire t w) = f w) ->
  (forall v w, f (with_host (set_now v) w) = f w) ->
  forall ms w, f (advance ms w) = f w.
Proof.
  intros Hf Hn ms w. unfold advance. rewrite Hn.
  generalize (sort_by_due
                (List.filter (fun t => snd t <=? now (host w) + Z.max 0 ms)
                             (timers (host w)))).
  intros l. revert w. induction l as [|t l IH]; intros w; [reflexivity|].
  cbn [fold_left]. rewrite IH. apply Hf.
Qed.

Lemma fire_listeners t w : listeners (host (fire t w)) = listeners (host w).
Proof. unfold fire. destruct (armed (fst t) w); reflexivity. Qed.

(** ** Listener registrations *)
Lemma Listener_eqb_sym a b : Listener_eqb a b = Listener_eqb b a.
Proof. destruct a, b; reflexivity. Qed.

Lemma listening_added l l' w :
  listening l (addEventListener l' w) = Listener_eqb l l' || listening l w.
Proof.
  unfold addEventListener. destruct (listening l' w) eqn:E.
  - destruct (Listener_eqb l l') eqn:E'; [|reflexivity].
    destruct l, l'; try discriminate; exact E.
  - unfold listening. cbn. rewrite existsb_app. cbn.
    rewrite orb_false_r, orb_comm. reflexivity.
Qed.

Lemma addEventListener_registered l w :
  listening l w = true -> addEventListener l w = w.
Proof. intros H. unfold addEventListener. rewrite H. reflexivity. Qed.

Lemma step_listeners w e :
  listeners (host (step w e))
  = match e with
    | EvMessage MStarted => listeners (host (ScreenCanvas.onVimInit w))
    | EvMessage MExit => listeners (host (ScreenCanvas.onVimExit w))
    | _ => listeners (host w)
    end.
Proof.
  destruct e as [m| ev | | | | | | | | |v]; cbn [step]; try reflexivity.
  - destruct m; try reflexivity.
    unfold VimWasm.onMessage, settle, ScreenCanvas.enqueue.
    destruct (negb (rafScheduled (screen w))); reflexivity.
  - destruct (listening OnInputKeydown w); [|reflexivity].
    unfold InputHandler.onKeydown.
    match goal with |- context [if ?b then _ else _] => destruct b end;
      reflexivity.
  - destruct (listening _ w); reflexivity.
  - destruct (listening _ w); reflexivity.
  - destruct (listening _ w); reflexivity.
  - destruct (listening _ w); [|reflexivity].
    unfold ResizeHandler.onResize.
    destruct (bounceTimerToken (resizer w)); reflexivity.
  - apply (advance_preserves (fun w => listeners (host w)));
      [apply fire_listeners|reflexivity].
  - apply (frame_preserves (fun w => listeners (host w)));
      [apply apply_listeners|reflexivity|reflexivity|reflexivity].
Qed.

Lemma click_listener_kept w e :
  listening OnCanvasClick w = true -> listening OnCanvasClick (step w e) = true.
Proof.
  intros H. unfold listening at 1. rewrite step_listeners.
  destruct e as [m| | | | | | | | | |]; try exact H.
  destruct m; try exact H.
  - fold (listening OnCanvasClick (ScreenCanvas.onVimInit w)).
    unfold ScreenCanvas.onVimInit, InputHandler.onVimInit,
      ResizeHandler.onVimInit.
    rewrite !listening_added, H. reflexivity.
  - fold (listening OnCanvasClick (ScreenCanvas.onVimExit w)).
    unfold ScreenCanvas.onVimExit, InputHandler.onVimExit,
      ResizeHandler.onVimExit.
    rewrite !listening_removed. exact H.
Qed.

Lemma boot_trace b :
  trace (host (boot b))
  = [(boot_time b, Focus);
     (boot_time b,
      PostMessage (MStart (rect_height (boot_rect b)) (rect_width (boot_rect b))
                          (boot_debug b)))].
Proof. reflexivity. Qed.

Lemma boot_listeners b : listeners (host (boot b)) = [OnCanvasClick].
Proof. reflexivity. Qed.

(** X1.  The click listener of the canvas is registered at page load and
    never removed: in every state the script can reach, a click on the
    canvas focuses the input element. *)
Theorem click_always_focuses :
  forall (b : Boot) (es : list Event),
    let w := run (boot b) es in
    listening OnCanvasClick w = true
    /\ trace (host (step w EvClick)) = trace (host w) ++ [(now (host w), Focus)].
Proof.
  intros b es w.
  assert (H : listening OnCanvasClick w = true).
  { subst w. generalize (boot b), (eq_refl : listening OnCanvasClick (boot b) = true).
    induction es as [|e es IH]; intros w0 H0; [exact H0|].
    cbn. apply IH, click_listener_kept, H0. }
  split; [exact H|]. cbn [step]. rewrite H. reflexivity.
Qed.

Lemma onVimInit_listening w :
  listening OnWindowResize (ScreenCanvas.onVimInit w) = true
  /\ listening OnInputKeydown (ScreenCanvas.onVimInit w) = true
  /\ listening OnInputBlur (ScreenCanvas.onVimInit w) = true
  /\ listening OnInputFocus (ScreenCanvas.onVimInit w) = true.
Proof.
  unfold ScreenCanvas.onVimInit, InputHandler.onVimInit,
    ResizeHandler.onVimInit.
  rewrite !listening_added. cbn. rewrite ?orb_true_r. auto.
Qed.

Lemma onVimExit_listening w :
  listening OnWindowResize (ScreenCanvas.onVimExit w) = false
  /\ listening OnInputKeydown (ScreenCanvas.onVimExit w) = false
  /\ listening OnInputBlur (ScreenCanvas.onVimExit w) = false
  /\ listening OnInputFocus (ScreenCanvas.onVimExit w) = false
  /\ listening OnCanvasClick (ScreenCanvas.onVimExit w)
     = listening OnCanvasClick w.
Proof.
  unfold ScreenCanvas.onVimExit, InputHandler.onVimExit,
    ResizeHandler.onVimExit.
  rewrite !listening_removed. cbn. auto.
Qed.

Lemma onVimInit_registered w :
  listening OnWindowResize w = true ->
  listening OnInputKeydown w = true ->
  listening OnInputBlur w = true ->
  listening OnInputFocus w = true ->
  ScreenCanvas.onVimInit w = w.
Proof.
  intros R K B F.
  unfold ScreenCanvas.onVimInit, InputHandler.onVimInit,
    ResizeHandler.onVimInit.
  rewrite (addEventListener_registered _ w R).
  rewrite (addEventListener_registered _ w K).
  rewrite (addEventListener_registered _ w B).
  apply addEventListener_registered, F.
Qed.

(** X2.  A second [started] message changes nothing: the handlers are
    registered once, so a key event is still handled once. *)
Theorem started_twice_registers_once :
  forall (w : World) (e : KeyboardEvent),
    let w1 := step w (EvMessage MStarted) in
    let w2 := step w1 (EvMessage MStarted) in
    w2 = w1
    /\ step w2 (EvKeydown e) = InputHandler.onKeydown e w1.
Proof.
  intros w e w1 w2.
  destruct (onVimInit_listening w) as [R [K [B F]]].
  assert (E : w2 = w1).
  { subst w2 w1. cbn [step VimWasm.onMessage settle].
    apply onVimInit_registered; assumption. }
  split; [exact E|]. rewrite E. subst w1.
  cbn [step VimWasm.onMessage settle]. rewrite K. reflexivity.
Qed.

Lemma filter_absent l ls :
  existsb (Listener_eqb l) ls = false ->
  List.filter (fun l' => negb (Listener_eqb l l')) ls = ls.
Proof.
  induction ls as [|x xs IH]; [reflexivity|].
  cbn. intros H. apply orb_false_iff in H. destruct H as [Hx Hxs].
  rewrite Hx. cbn. rewrite IH by exact Hxs. reflexivity.
Qed.

(** Registering and removing listeners touches the listener list only. *)
Lemma with_listeners_id w :
  with_host (set_listeners (listeners (host w))) w = w.
Proof. destruct w as [h c wk rs sc]. destruct h. reflexivity. Qed.

Lemma with_listeners_twice a b w :
  with_host (set_listeners a) (with_host (set_listeners b) w)
  = with_host (set_listeners a) w.
Proof. reflexivity. Qed.

Lemma addEventListener_list l w :
  addEventListener l w
  = with_host
      (set_listeners
         (if existsb (Listener_eqb l) (listeners (host w))
          then listeners (host w) else listeners (host w) ++ [l])) w.
Proof.
  unfold addEventListener, listening.
  destruct (existsb (Listener_eqb l) (listeners (host w)));
    [symmetry; apply with_listeners_id|reflexivity].
Qed.

Lemma removeEventListener_list l w :
  removeEventListener l w
  = with_host
      (set_listeners
         (List.filter (fun l' => negb (Listener_eqb l l')) (listeners (host w))))
      w.
Proof. reflexivity. Qed.

Lemma listeners_with_listeners a w :
  listeners (host (with_host (set_listeners a) w)) = a.
Proof. reflexivity. Qed.

Lemma remove_after_add (ls : list Listener) :
  existsb (Listener_eqb OnWindowResize) ls = false ->
  existsb (Listener_eqb OnInputKeydown) ls = false ->
  existsb (Listener_eqb OnInputBlur) ls = false ->
  existsb (Listener_eqb OnInputFocus) ls = false ->
  List.filter (fun l' => negb (Listener_eqb OnInputFocus l'))
    (List.filter (fun l' => negb (Listener_eqb OnInputBlur l'))
       (List.filter (fun l' => negb (Listener_eqb OnInputKeydown l'))
          (List.filter (fun l' => negb (Listener_eqb OnWindowResize l'))
             ((((ls ++ [OnWindowResize]) ++ [OnInputKeydown])
               ++ [OnInputBlur]) ++ [OnInputFocus]))))
  = ls.
Proof.
  rewrite <- !app_assoc. cbn [app].
  induction ls as [|x xs IH]; intros R K B F; [reflexivity|].
  cbn [existsb] in R, K, B, F.
  apply orb_false_iff in R, K, B, F.
  destruct R as [Rx R], K as [Kx K], B as [Bx B], F as [Fx F].
  destruct x; try discriminate.
  cbn. f_equal. apply IH; assumption.
Qed.

(** X3.  With none of the four session listeners registered, [started]
    followed by [exit] gives back the world as it was. *)
Theorem exit_undoes_started :
  forall w : World,
    listening OnWindowResize w = false ->
    listening OnInputKeydown w = false ->
    listening OnInputBlur w = false ->
    listening OnInputFocus w = false ->
    step (step w (EvMessage MStarted)) (EvMessage MExit) = w.
Proof.
  intros w R K B F.
  cbn [step VimWasm.onMessage settle].
  unfold ScreenCanvas.onVimInit, ScreenCanvas.onVimExit,
    InputHandler.onVimInit, InputHandler.onVimExit,
    ResizeHandler.onVimInit, ResizeHandler.onVimExit.
  unfold listening in R, K, B, F.
  assert (K1 : existsb (Listener_eqb OnInputKeydown)
                       (listeners (host w) ++ [OnWindowResize]) = false).
  { rewrite existsb_app, K. reflexivity. }
  assert (B2 : existsb (Listener_eqb OnInputBlur)
                       ((listeners (host w) ++ [OnWindowResize])
                        ++ [OnInputKeydown]) = false).
  { rewrite !existsb_app, B. reflexivity. }
  assert (F3 : existsb (Listener_eqb OnInputFocus)
                       (((listeners (host w) ++ [OnWindowResize])
                         ++ [OnInputKeydown]) ++ [OnInputBlur]) = false).
  { rewrite !existsb_app, F. reflexivity. }
  rewrite !addEventListener_list, !removeEventListener_list.
  rewrite !listeners_with_listeners, !with_listeners_twice.
  rewrite R, K1, B2, F3.
  rewrite remove_after_add by assumption.
  apply with_listeners_id.
Qed.

(** ** The outbox *)
Lemma fire_trace_extends t w :
  exists d, trace (host (fire t w)) = trace (host w) ++ d.
Proof.
  unfold fire. destruct (armed (fst t) w).
  - eexists. reflexivity.
  - exists []. rewrite app_nil_r. reflexivity.
Qed.

Lemma advance_trace_extends ms w :
  exists d, trace (host (advance ms w)) = trace (host w) ++ d.
Proof.
  unfold advance. cbn [with_host host trace set_now].
  generalize (sort_by_due
                (List.filter (fun t => snd t <=? now (host w) + Z.max 0 ms)
                             (timers (host w)))).
  intros l. revert w. induction l as [|t l IH]; intros w.
  - exists []. rewrite app_nil_r. reflexivity.
  - cbn [fold_left]. destruct (IH (fire t w)) as [d2 E2].
    destruct (fire_trace_extends t w) as [d1 E1].
    exists (d1 ++ d2). rewrite E2, E1, app_assoc. reflexivity.
Qed.

Lemma step_trace_extends w e :
  exists d, trace (host (step w e)) = trace (host w) ++ d.
Proof.
  assert (Hid : exists d, trace (host w) = trace (host w) ++ d).
  { exists []. rewrite app_nil_r. reflexivity. }
  destruct e as [m| ev | | | | | | | | |v]; cbn [step]; try exact Hid.
  - destruct m; cbn [VimWasm.onMessage settle].
    + unfold ScreenCanvas.enqueue.
      destruct (negb (rafScheduled (screen w))); exact Hid.
    + unfold ScreenCanvas.onVimInit, InputHandler.onVimInit,
        ResizeHandler.onVimInit, addEventListener.
      repeat match goal with
             | |- context [if ?b then _ else _] => destruct b
             end; exact Hid.
    + exact Hid.
    + unfold fatal. cbn. rewrite <- app_assoc. eexists. reflexivity.
    + eexists. reflexivity.
  - destruct (listening OnInputKeydown w); [|exact Hid].
    unfold InputHandler.onKeydown.
    match goal with |- context [if ?b then _ else _] => destruct b end;
      cbn; rewrite <- ?app_assoc; eexists; reflexivity.
  - destruct (listening _ w); [eexists; reflexivity|exact Hid].
  - destruct (listening _ w); exact Hid.
  - destruct (listening _ w); [eexists; reflexivity|exact Hid].
  - destruct (listening _ w); [|exact Hid].
    unfold ResizeHandler.onResize.
    destruct (bounceTimerToken (resizer w)); exact Hid.
  - apply advance_trace_extends.
  - destruct (frame_trace w) as [d [E _]]. exists d. exact E.
Qed.

Lemma run_trace_extends es :
  forall w, exists d, trace (host (run w es)) = trace (host w) ++ d.
Proof.
  induction es as [|e es IH]; intros w.
  - exists []. cbn. rewrite app_nil_r. reflexivity.
  - cbn [run fold_left]. fold (run (step w e) es).
    destruct (IH (step w e)) as [d2 E2].
    destruct (step_trace_extends w e) as [d1 E1].
    exists (d1 ++ d2). rewrite E2, E1, app_assoc. reflexivity.
Qed.

(** X4.  Whatever happens after page load, the first message in the
    outbox is the [start] message, with the height and width of the canvas
    box at load and the debug flag. *)
Theorem start_is_the_first_message :
  forall (b : Boot) (es : list Event),
    exists rest,
      posted (trace (host (run (boot b) es)))
      = (boot_time b,
         MStart (rect_height (boot_rect b)) (rect_width (boot_rect b))
                (boot_debug b)) :: rest.
Proof.
  intros b es. destruct (run_trace_extends es (boot b)) as [d E].
  exists (posted d). rewrite E, posted_app, boot_trace. reflexivity.
Qed.

Lemma posted_of_extension (w w' : World) d :
  trace (host w') = trace (host w) ++ d ->
  posted d = [] -> wakes d = [] ->
  posted (trace (host w')) = posted (trace (host w))
  /\ wakes (trace (host w')) = wakes (trace (host w)).
Proof.
  intros -> Hp Hw. rewrite posted_app, wakes_app, Hp, Hw, !app_nil_r. auto.
Qed.

Lemma inactive_call w c :
  inactive w ->
  (match c with PostMessage _ | AtomicsStore _ _ => false | _ => true end)
  = true ->
  inactive (call c w)
  /\ posted (trace (host (call c w))) = posted (trace (host w))
  /\ wakes (trace (host (call c w))) = wakes (trace (host w)).
Proof.
  intros Hi Hc. split; [exact Hi|].
  cbn [call with_host host trace set_trace].
  rewrite posted_app, wakes_app.
  destruct c; try discriminate; cbn; rewrite !app_nil_r; auto.
Qed.

Lemma inactive_step w e :
  inactive w ->
  (match e with EvMessage MStarted => false | _ => true end) = true ->
  inactive (step w e)
  /\ posted (trace (host (step w e))) = posted (trace (host w))
  /\ wakes (trace (host (step w e))) = wakes (trace (host w)).
Proof.
  intros Hi He. pose proof Hi as [K [R T]].
  assert (Hid : inactive w
                /\ posted (trace (host w)) = posted (trace (host w))
                /\ wakes (trace (host w)) = wakes (trace (host w))) by auto.
  destruct e as [m| ev | | | | | | |ms | |v]; cbn [step].
  - destruct m; try discriminate; cbn [VimWasm.onMessage settle].
    + unfold ScreenCanvas.enqueue.
      destruct (negb (rafScheduled (screen w))); exact Hid.
    + destruct (onVimExit_listening w) as [R' [K' _]].
      split; [split; [exact K'|split; [exact R'|exact T]]|]. auto.
    + change (settle (fatal message w))
        with (call (Uncaught message) (call (Alert message) w)).
      destruct (inactive_call w (Alert message) Hi eq_refl) as [A [B C]].
      destruct (inactive_call _ (Uncaught message) A eq_refl) as [A' [B' C']].
      rewrite B', C', B, C. auto.
    + apply (inactive_call w (Uncaught _) Hi eq_refl).
  - rewrite K. exact Hid.
  - destruct (listening OnInputBlur w); [|exact Hid].
    apply (inactive_call w PreventDefault Hi eq_refl).
  - destruct (listening OnInputFocus w); exact Hid.
  - destruct (listening OnCanvasClick w); [|exact Hid].
    apply (inactive_call w Focus Hi eq_refl).
  - rewrite R. exact Hid.
  - exact Hid.
  - exact Hid.
  - rewrite (advance_idle w ms T). exact Hid.
  - unfold inactive, listening.
    rewrite (frame_preserves (fun w => listeners (host w)));
      [|apply apply_listeners|reflexivity|reflexivity|reflexivity].
    rewrite (frame_preserves (fun w => timers (host w)));
      [|apply apply_timers|reflexivity|reflexivity|reflexivity].
    destruct (frame_trace w) as [d [E F]].
    destruct (uncaught_only d F) as [P [W _]].
    rewrite E, posted_app, wakes_app, P, W, !app_nil_r. auto.
  - exact Hid.
Qed.

(** X5.  While the key and resize listeners are not registered and no
    timer is pending, no event other than a [started] message makes the
    script post a message or issue a wake signal, and it stays that way. *)
Theorem nothing_forwarded_while_inactive :
  forall (w : World) (es : list Event),
    inactive w ->
    no_started es = true ->
    inactive (run w es)
    /\ posted (trace (host (run w es))) = posted (trace (host w))
    /\ wakes (trace (host (run w es))) = wakes (trace (host w)).
Proof.
  intros w es. revert w. induction es as [|e es IH]; intros w Hi Hn.
  - auto.
  - cbn in Hn. apply andb_true_iff in Hn. destruct Hn as [He Hn].
    destruct (inactive_step w e Hi He) as [Hi' [P W]].
    cbn [run fold_left]. fold (run (step w e) es).
    destruct (IH (step w e) Hi' Hn) as [Hi'' [P' W']].
    rewrite P', W', P, W. auto.
Qed.

(** ** What the events append to the trace *)

Lemma key_times_app a b : key_times (a ++ b) = key_times a ++ key_times b.
Proof. unfold key_times. apply flat_map_app. Qed.

Lemma resize_times_app a b :
  resize_times (a ++ b) = resize_times a ++ resize_times b.
Proof. unfold resize_times. apply flat_map_app. Qed.

Lemma told_sizes_app a b : told_sizes (a ++ b) = told_sizes a ++ told_sizes b.
Proof. unfold told_sizes. apply flat_map_app. Qed.

(** What an event other than a pause appends to the trace: wake signals
    and key messages in pairs, no [start] and no [resize] message. *)
Lemma step_appends w e :
  (match e with EvSleep _ => false | _ => true end) = true ->
  exists d,
    trace (host (step w e)) = trace (host w) ++ d
    /\ wakes d = key_times d
    /\ resize_times d = []
    /\ told_sizes d = [].
Proof.
  intros He.
  assert (Hid : exists d, trace (host w) = trace (host w) ++ d
                          /\ wakes d = key_times d
                          /\ resize_times d = []
                          /\ told_sizes d = []).
  { exists []. rewrite app_nil_r. auto. }
  destruct e as [m| ev | | | | | | | | |v]; try discriminate;
    cbn [step]; try exact Hid.
  - destruct m; cbn [VimWasm.onMessage settle].
    + unfold ScreenCanvas.enqueue.
      destruct (negb (rafScheduled (screen w))); exact Hid.
    + unfold ScreenCanvas.onVimInit, InputHandler.onVimInit,
        ResizeHandler.onVimInit, addEventListener.
      repeat match goal with
             | |- context [if ?b then _ else _] => destruct b
             end; exact Hid.
    + exact Hid.
    + unfold fatal. cbn. rewrite <- app_assoc. eexists.
      split; [reflexivity|]. cbn. auto.
    + eexists. split; [reflexivity|]. cbn. auto.
  - destruct (listening OnInputKeydown w); [|exact Hid].
    unfold InputHandler.onKeydown.
    match goal with |- context [if ?b then _ else _] => destruct b end;
      cbn; rewrite <- ?app_assoc; eexists; (split; [reflexivity|]);
      cbn; auto.
  - destruct (listening _ w); [|exact Hid].
    eexists. split; [reflexivity|]. cbn. auto.
  - destruct (listening _ w); exact Hid.
  - destruct (listening _ w); [|exact Hid].
    eexists. split; [reflexivity|]. cbn. auto.
  - destruct (listening _ w); [|exact Hid].
    unfold ResizeHandler.onResize.
    destruct (bounceTimerToken (resizer w)); exact Hid.
  - destruct (frame_trace w) as [d [E F]].
    destruct (uncaught_only d F) as [_ [W [_ [K [R T]]]]].
    exists d. rewrite W, K. auto.
Qed.

(** A timer that fires appends one [resize] message with the size it
    stores in the handler. *)
Lemma fire_appends t w :
  fire t w = w
  \/ (trace (host (fire t w))
      = trace (host w)
        ++ [(Z.max (now (host w)) (snd t), PostMessage (resize_of w))]
      /\ elemHeight (resizer (fire t w)) = rect_height (canvasRect (host w))
      /\ elemWidth (resizer (fire t w)) = rect_width (canvasRect (host w))).
Proof.
  unfold fire. destruct (armed (fst t) w); [right|left; reflexivity].
  repeat split; reflexivity.
Qed.

Lemma advance_appends ms w :
  exists d,
    trace (host (advance ms w)) = trace (host w) ++ d
    /\ wakes d = [] /\ key_times d = [].
Proof.
  unfold advance. cbn [with_host host trace set_now].
  generalize (sort_by_due
                (List.filter (fun t => snd t <=? now (host w) + Z.max 0 ms)
                             (timers (host w)))).
  intros l. revert w. induction l as [|t l IH]; intros w.
  - exists []. rewrite app_nil_r. auto.
  - cbn [fold_left]. destruct (IH (fire t w)) as [d2 [E2 [W2 K2]]].
    destruct (fire_appends t w) as [E1|[E1 _]].
    + rewrite E1 in *. exists d2. auto.
    + eexists. split; [rewrite E2, E1, <- app_assoc; reflexivity|].
      rewrite wakes_app, key_times_app, W2, K2. auto.
Qed.

(** X6.  In every run from page load the wake signals are issued exactly
    with the key messages: their times coincide one for one.  The [start]
    and [resize] messages are posted without a wake signal. *)
Theorem wake_exactly_with_key_messages :
  forall (b : Boot) (es : list Event),
    wakes (trace (host (run (boot b) es)))
    = key_times (trace (host (run (boot b) es))).
Proof.
  intros b es.
  assert (H : forall w, wakes (trace (host w)) = key_times (trace (host w)) ->
                        wakes (trace (host (run w es)))
                        = key_times (trace (host (run w es)))).
  { induction es as [|e es IH]; intros w Hw; [exact Hw|].
    cbn [run fold_left]. apply IH.
    destruct e as [m|ev| | | | |r|q|ms| |v];
      try (match goal with
           | |- context [step w ?e] =>
               destruct (step_appends w e eq_refl) as [d [E [P _]]]
           end;
           rewrite E, wakes_app, key_times_app, Hw, P; reflexivity).
    cbn [step]. destruct (advance_appends ms w) as [d [E [W K]]].
    rewrite E, wakes_app, key_times_app, Hw, W, K. reflexivity. }
  apply H. reflexivity.
Qed.

(** ** The debounce timer in every reachable state *)
Lemma resize_timer_transfer w w' p :
  bounceTimerToken (resizer w') = bounceTimerToken (resizer w) ->
  timers (host w') = timers (host w) ->
  now (host w') = now (host w) ->
  resize_timer w p -> resize_timer w' p.
Proof.
  intros Hb Ht Hn. destruct p as [e|]; cbn [resize_timer].
  - rewrite Hb, Ht, Hn. auto.
  - rewrite Hb, Ht. auto.
Qed.

Lemma fire_timers_now t w :
  timers (host (fire t w)) = (if armed (fst t) w
                              then timers (host (clearTimeout (fst t) w))
                              else timers (host w)).
Proof. unfold fire. destruct (armed (fst t) w); reflexivity. Qed.

(** Events other than a notification and a pause leave the clock, the
    timer table and the stored token alone. *)
Lemma step_keeps_debounce w e :
  (match e with EvWindowResize | EvSleep _ => false | _ => true end) = true ->
  bounceTimerToken (resizer (step w e)) = bounceTimerToken (resizer w)
  /\ timers (host (step w e)) = timers (host w)
  /\ now (host (step w e)) = now (host w)
  /\ elemHeight (resizer (step w e)) = elemHeight (resizer w)
  /\ elemWidth (resizer (step w e)) = elemWidth (resizer w).
Proof.
  intros He.
  destruct e as [m| ev | | | | | | | | |v]; try discriminate;
    cbn [step]; try (repeat split; reflexivity).
  - destruct m; cbn [VimWasm.onMessage settle];
      try (repeat split; reflexivity).
    + unfold ScreenCanvas.enqueue.
      destruct (negb (rafScheduled (screen w))); repeat split; reflexivity.
    + unfold ScreenCanvas.onVimInit, InputHandler.onVimInit,
        ResizeHandler.onVimInit, addEventListener.
      repeat match goal with
             | |- context [if ?b then _ else _] => destruct b
             end; repeat split; reflexivity.
  - destruct (listening OnInputKeydown w); [|repeat split; reflexivity].
    unfold InputHandler.onKeydown.
    match goal with |- context [if ?b then _ else _] => destruct b end;
      repeat split; reflexivity.
  - destruct (listening _ w); repeat split; reflexivity.
  - destruct (listening _ w); repeat split; reflexivity.
  - destruct (listening _ w); repeat split; reflexivity.
  - rewrite (frame_preserves (fun w => resizer w));
      [|intros m w0; apply (apply_host m w0)|reflexivity|reflexivity|reflexivity].
    rewrite (frame_preserves (fun w => timers (host w)));
      [|apply apply_timers|reflexivity|reflexivity|reflexivity].
    rewrite (frame_preserves (fun w => now (host w)));
      [|apply apply_now|reflexivity|reflexivity|reflexivity].
    repeat split; reflexivity.
Qed.

Lemma spaced_snoc l x :
  spaced l -> (forall T, last l = Some T -> T + 1000 <= x) -> spaced (l ++ [x]).
Proof.
  induction l as [|a l IH]; intros Hs Hl; [exact I|].
  destruct l as [|b l].
  - cbn. split; [apply Hl; reflexivity|exact I].
  - cbn [app spaced] in *. destruct Hs as [Hab Hs]. split; [exact Hab|].
    apply IH; [exact Hs|]. intros T HT. apply Hl. rewrite last_cons_cons.
    exact HT.
Qed.

Lemma debounce_inv_step w p e :
  debounce_inv w p -> exists p', debounce_inv (step w e) p'.
Proof.
  intros [Hp [Hs Hl]].
  destruct e as [m|ev| | | | |r|q|ms| |v];
    try (exists p;
         match goal with
         | |- context [step w ?e] =>
             destruct (step_keeps_debounce w e eq_refl) as [Hb [Ht [Hn _]]];
             destruct (step_appends w e eq_refl) as [d [E [_ [R _]]]]
         end;
         split; [apply (resize_timer_transfer w); assumption|];
         rewrite E, resize_times_app, R, app_nil_r, Hn; auto; fail).
  - (* a notification *)
    cbn [step]. destruct (listening OnWindowResize w).
    + exists (Some 0).
      destruct (onResize_arms w p Hp) as [Hp' [Ht [Hn _]]].
      split; [exact Hp'|]. rewrite Ht, Hn. split; [exact Hs|].
      intros T HT. specialize (Hl T HT). cbn.
      destruct p as [e|]; cbn in Hl; [destruct Hp as [He _]|]; lia.
    + exists p. exact (conj Hp (conj Hs Hl)).
  - (* a pause *)
    cbn [step]. destruct p as [e|].
    + destruct (Z.lt_ge_cases (e + Z.max 0 ms) 1000) as [Hlt|Hge].
      * exists (Some (e + Z.max 0 ms)).
        rewrite (advance_before_due w e ms Hp Hlt).
        cbn [with_host host trace set_now now].
        split; [|split; [exact Hs|]].
        -- destruct Hp as [He [tok [Hb Htm]]].
           cbn [resize_timer with_host host resizer timers now set_now].
           split; [lia|]. exists tok. split; [exact Hb|].
           rewrite Htm. f_equal. f_equal. lia.
        -- intros T HT. specialize (Hl T HT). cbn in *. lia.
      * exists None.
        destruct (advance_fires w e ms Hp Hge) as [Hp' [Ht [Hn _]]].
        split; [exact Hp'|]. rewrite Ht, Hn, resize_times_app. cbn.
        split.
        -- apply spaced_snoc; [exact Hs|]. intros T HT.
           specialize (Hl T HT). cbn in Hl. lia.
        -- intros T HT. rewrite last_snoc in HT. injection HT as <-.
           destruct Hp as [He _]. lia.
    + exists None. destruct Hp as [Hb Htm].
      rewrite (advance_idle w ms Htm).
      cbn [with_host host trace set_now now].
      split; [split; assumption|]. split; [exact Hs|].
      intros T HT. specialize (Hl T HT). cbn in *. lia.
Qed.

Lemma boot_debounce_inv b : debounce_inv (boot b) None.
Proof.
  split; [split; reflexivity|]. rewrite boot_trace. cbn.
  split; [exact I|]. intros T HT. discriminate.
Qed.

Lemma run_debounce_inv es :
  forall w p, debounce_inv w p -> exists p', debounce_inv (run w es) p'.
Proof.
  induction es as [|e es IH]; intros w p H; [exists p; exact H|].
  cbn [run fold_left]. destruct (debounce_inv_step w p e H) as [p' H'].
  apply (IH _ p' H').
Qed.

Lemma resize_timer_debounce_ok w p : resize_timer w p -> debounce_ok w.
Proof.
  unfold debounce_ok. destruct p as [e|]; cbn [resize_timer].
  - intros [He [tok [-> Ht]]]. eexists. split; [exact Ht|]. lia.
  - intros [-> Ht]. exact Ht.
Qed.

(** X7.  In every state the script can reach at most one timer is armed;
    it is the one whose token the resize handler stores, and it is due
    later than now and at most 1000 ms from now.  With no token stored
    the timer table is empty. *)
Theorem at_most_one_debounce_timer :
  forall (b : Boot) (es : list Event),
    let w := run (boot b) es in
    debounce_ok w /\ (length (timers (host w)) <= 1)%nat.
Proof.
  intros b es w.
  destruct (run_debounce_inv es (boot b) None (boot_debounce_inv b))
    as [p [Hp _]].
  fold w in Hp. split; [apply (resize_timer_debounce_ok w p Hp)|].
  destruct p as [e|]; cbn [resize_timer] in Hp.
  - destruct Hp as [_ [tok [_ ->]]]. cbn. lia.
  - destruct Hp as [_ ->]. cbn. lia.
Qed.

(** X8.  In every run from page load, two consecutive [resize] messages
    are at least 1000 ms apart. *)
Theorem resize_messages_are_spaced :
  forall (b : Boot) (es : list Event),
    spaced (resize_times (trace (host (run (boot b) es)))).
Proof.
  intros b es.
  destruct (run_debounce_inv es (boot b) None (boot_debounce_inv b))
    as [p [_ [Hs _]]].
  exact Hs.
Qed.

(** ** The size the handler remembers *)
Lemma advance_invariant (P : World -> Prop) :
  (forall t w, P w -> P (fire t w)) ->
  (forall v w, P w -> P (with_host (set_now v) w)) ->
  forall ms w, P w -> P (advance ms w).
Proof.
  intros Hf Hn ms w Hw. unfold advance. apply Hn.
  generalize (sort_by_due
                (List.filter (fun t => snd t <=? now (host w) + Z.max 0 ms)
                             (timers (host w)))).
  intros l. revert w Hw. induction l as [|t l IH]; intros w Hw; [exact Hw|].
  cbn [fold_left]. apply IH, Hf, Hw.
Qed.

Lemma size_told_step w e : size_told w -> size_told (step w e).
Proof.
  unfold size_told. intros H.
  destruct e as [m|ev| | | | |r|q|ms| |v];
    try (match goal with
         | |- context [step w ?e] =>
             destruct (step_keeps_debounce w e eq_refl) as [_ [_ [_ [Eh Ew]]]];
             destruct (step_appends w e eq_refl) as [d [E [_ [_ S]]]]
         end;
         rewrite E, told_sizes_app, S, app_nil_r, Eh, Ew; exact H; fail).
  - destruct (step_appends w EvWindowResize eq_refl) as [d [E [_ [_ S]]]].
    rewrite E, told_sizes_app, S, app_nil_r.
    cbn [step]. destruct (listening OnWindowResize w); [|exact H].
    unfold ResizeHandler.onResize.
    destruct (bounceTimerToken (resizer w)); exact H.
  - cbn [step]. apply (advance_invariant size_told); [| |exact H].
    + intros t w0 H0. unfold size_told.
      destruct (fire_appends t w0) as [E|[E [Eh Ew]]].
      * rewrite E. exact H0.
      * rewrite E, told_sizes_app, Eh, Ew. cbn. apply last_snoc.
    + intros v0 w0 H0. exact H0.
Qed.

(** X9.  In every state the script can reach, the height and width the
    resize handler remembers are those of the latest [start] or [resize]
    message posted to the worker. *)
Theorem handler_size_is_the_last_size_told :
  forall (b : Boot) (es : list Event),
    let w := run (boot b) es in
    last (told_sizes (trace (host w)))
    = Some (elemHeight (resizer w), elemWidth (resizer w)).
Proof.
  intros b es.
  assert (H : forall w, size_told w -> size_told (run w es)).
  { induction es as [|e es IH]; intros w Hw; [exact Hw|].
    cbn [run fold_left]. apply IH, size_told_step, Hw. }
  apply (H (boot b)). reflexivity.
Qed.

(** ** What painting depends on *)

Ltac unfold_apply :=
  unfold ScreenCanvas.setColorFG, ScreenCanvas.setColorBG,
    ScreenCanvas.setColorSP, ScreenCanvas.setFont, InputHandler.setFont,
    ScreenCanvas.drawRect, ScreenCanvas.drawText, ScreenCanvas.invertRect,
    ScreenCanvas.imageScroll, Context2D.getImageData, Context2D.drawImage.

(** Whether an instruction throws, and what it paints with, is decided by
    the context, the foreground and special colours, the font name and the
    pixel ratio. *)
Lemma apply_ink_congruent m w1 w2 :
  ink w1 = ink w2 ->
  returns (ScreenCanvas.apply m w1) = returns (ScreenCanvas.apply m w2)
  /\ ink (world_of (ScreenCanvas.apply m w1))
     = ink (world_of (ScreenCanvas.apply m w2)).
Proof.
  destruct w1 as [h1 c1 k1 r1 s1], w2 as [h2 c2 k2 r2 s2].
  destruct h1 as [n1 d1 p1 t1 nt1 rc1 l1 cr1 is1 tr1],
           h2 as [n2 d2 p2 t2 nt2 rc2 l2 cr2 is2 tr2],
           s1 as [fg1 bg1 sp1 fn1 q1 rs1], s2 as [fg2 bg2 sp2 fn2 q2 rs2].
  unfold ink. cbn [ctx screen host fgColor spColor fontName devicePixelRatio].
  intros H. injection H as -> -> -> -> ->.
  destruct m; cbn [ScreenCanvas.apply]; unfold_apply; unfold dpr;
    try (destruct filled);
    try (destruct underline; [|destruct undercurl; [|destruct strike]]);
    cbn [with_ctx with_screen with_host ctx screen host fgColor spColor
         fontName devicePixelRatio set_fgColor set_bgColor set_spColor
         set_fontName set_inputStyle returns world_of];
    try match goal with
        | |- context [if ?b then Raises _ else _] => destruct b
        end;
    split; reflexivity.
Qed.

Lemma apply_bgColor m w :
  bgColor (screen (world_of (ScreenCanvas.apply m w)))
  = match m with
    | DSetColorBG name => Some name
    | _ => bgColor (screen w)
    end.
Proof.
  case_apply m; unfold_apply;
    try (destruct filled);
    try (destruct underline; [|destruct undercurl; [|destruct strike]]);
    reflexivity.
Qed.

Lemma apply_inputStyle m w :
  inputStyle (host (world_of (ScreenCanvas.apply m w)))
  = match m with
    | DSetFont name size => mkInputStyle (Some name) (Some size)
    | _ => inputStyle (host w)
    end.
Proof.
  case_apply m; unfold_apply;
    try (destruct filled);
    try (destruct underline; [|destruct undercurl; [|destruct strike]]);
    reflexivity.
Qed.

Lemma apply_ratio m w :
  devicePixelRatio (host (world_of (ScreenCanvas.apply m w)))
  = devicePixelRatio (host w).
Proof. destruct (apply_host m w) as [-> _]. reflexivity. Qed.

Lemma apply_all_cons m ms w :
  apply_all (m :: ms) w
  = match ScreenCanvas.apply m w with
    | Normal w' => apply_all ms w'
    | Throw _ w' => w'
    end.
Proof.
  unfold apply_all. cbn [ScreenCanvas.applyQueue].
  destruct (ScreenCanvas.apply m w); reflexivity.
Qed.

Lemma apply_all_ink ms :
  forall w1 w2,
    ink w1 = ink w2 ->
    ink (apply_all ms w1) = ink (apply_all (omap painting_part ms) w2).
Proof.
  induction ms as [|m ms IH]; intros w1 w2 H; [exact H|].
  assert (G : forall m', painting_part m = Some m' ->
                         (m' = m \/ exists name s s', m = DSetFont name s
                                                      /\ m' = DSetFont name s') ->
                         ink (apply_all (m :: ms) w1)
                         = ink (apply_all (m' :: omap painting_part ms) w2)).
  { intros m' _ [->|[name [s [s' [-> ->]]]]]; rewrite !apply_all_cons.
    - destruct (apply_ink_congruent m w1 w2 H) as [R I].
      destruct (ScreenCanvas.apply m w1), (ScreenCanvas.apply m w2);
        try discriminate; cbn [world_of] in I; [apply IH, I|exact I].
    - cbn [ScreenCanvas.apply]. apply IH.
      unfold ink in *. cbn. injection H as -> -> -> _ ->. reflexivity. }
  destruct m; cbn [omap painting_part mbind]; cbn [app];
    try (apply G; [reflexivity|left; reflexivity]).
  - (* background colour *)
    rewrite apply_all_cons. cbn [ScreenCanvas.apply]. apply IH. exact H.
  - (* font *)
    apply G; [reflexivity|]. right. eauto.
Qed.

Lemma drawn_of_ink w1 w2 :
  ink w1 = ink w2 ->
  bgColor (screen w1) = bgColor (screen w2) ->
  inputStyle (host w1) = inputStyle (host w2) ->
  drawn w1 = drawn w2.
Proof.
  unfold ink, drawn. intros H Hb Hs. injection H as -> -> -> -> _.
  rewrite Hb, Hs. reflexivity.
Qed.

Lemma ink_of_drawn w1 w2 :
  drawn w1 = drawn w2 ->
  devicePixelRatio (host w1) = devicePixelRatio (host w2) ->
  ink w1 = ink w2
  /\ bgColor (screen w1) = bgColor (screen w2)
  /\ inputStyle (host w1) = inputStyle (host w2).
Proof.
  unfold ink, drawn. intros H Hr. injection H as -> -> -> -> -> ->.
  rewrite Hr. auto.
Qed.

(** An instruction acts on what is drawn and on the pixel ratio alone. *)
Lemma apply_drawn_congruent m w1 w2 :
  drawn w1 = drawn w2 ->
  devicePixelRatio (host w1) = devicePixelRatio (host w2) ->
  returns (ScreenCanvas.apply m w1) = returns (ScreenCanvas.apply m w2)
  /\ drawn (world_of (ScreenCanvas.apply m w1))
     = drawn (world_of (ScreenCanvas.apply m w2))
  /\ devicePixelRatio (host (world_of (ScreenCanvas.apply m w1)))
     = devicePixelRatio (host (world_of (ScreenCanvas.apply m w2))).
Proof.
  intros H Hr. destruct (ink_of_drawn w1 w2 H Hr) as [Hi [Hb Hs]].
  destruct (apply_ink_congruent m w1 w2 Hi) as [R I].
  split; [exact R|]. split; [|rewrite !apply_ratio; exact Hr].
  apply drawn_of_ink.
  - exact I.
  - rewrite !apply_bgColor. destruct m; try exact Hb; reflexivity.
  - rewrite !apply_inputStyle. destruct m; try exact Hs; reflexivity.
Qed.

Lemma applyQueue_drawn_congruent ms :
  forall w1 w2,
    drawn w1 = drawn w2 ->
    devicePixelRatio (host w1) = devicePixelRatio (host w2) ->
    returns (ScreenCanvas.applyQueue ms w1)
    = returns (ScreenCanvas.applyQueue ms w2)
    /\ drawn (apply_all ms w1) = drawn (apply_all ms w2)
    /\ devicePixelRatio (host (apply_all ms w1))
       = devicePixelRatio (host (apply_all ms w2)).
Proof.
  induction ms as [|m ms IH]; intros w1 w2 H Hr; [auto|].
  rewrite !apply_all_cons. cbn [ScreenCanvas.applyQueue].
  destruct (apply_drawn_congruent m w1 w2 H Hr) as [R [H' Hr']].
  destruct (ScreenCanvas.apply m w1), (ScreenCanvas.apply m w2);
    try discriminate; cbn [world_of] in H', Hr'.
  - apply (IH _ _ H' Hr').
  - auto.
Qed.

Lemma apply_all_drawn_congruent ms w1 w2 :
  drawn w1 = drawn w2 ->
  devicePixelRatio (host w1) = devicePixelRatio (host w2) ->
  drawn (apply_all ms w1) = drawn (apply_all ms w2).
Proof. intros H Hr. apply (applyQueue_drawn_congruent ms w1 w2 H Hr). Qed.

(** X10.  The canvas does not depend on the background colour nor on the
    size given with a font: dropping every set-background instruction and
    replacing every font size by 0 leaves the context (properties, path,
    paint history and bitmap) after a flush of the instructions the same,
    also when the flush is left by an exception. *)
Theorem background_and_font_size_never_reach_the_canvas :
  forall (ms : list DrawEventMessage) (w : World),
    ctx (apply_all ms w) = ctx (apply_all (omap painting_part ms) w).
Proof.
  intros ms w. pose proof (apply_all_ink ms w w eq_refl) as H.
  unfold ink in H. injection H as H _ _ _ _. exact H.
Qed.

(** ** Drawing happens in the refresh callback only *)
Lemma fire_drawn t w :
  drawn (fire t w) = drawn w
  /\ devicePixelRatio (host (fire t w)) = devicePixelRatio (host w)
  /\ queue (screen (fire t w)) = queue (screen w).
Proof. unfold fire. destruct (armed (fst t) w); auto. Qed.

Lemma step_keeps_drawn w e :
  (match e with EvFrame => false | _ => true end) = true ->
  drawn (step w e) = drawn w.
Proof.
  intros He.
  destruct e as [m|ev| | | | |r|q|ms| |v]; try discriminate;
    cbn [step]; try reflexivity.
  - destruct m; cbn [VimWasm.onMessage settle]; try reflexivity.
    + unfold ScreenCanvas.enqueue.
      destruct (negb (rafScheduled (screen w))); reflexivity.
    + unfold ScreenCanvas.onVimInit, InputHandler.onVimInit,
        ResizeHandler.onVimInit, addEventListener.
      repeat match goal with
             | |- context [if ?b then _ else _] => destruct b
             end; reflexivity.
  - destruct (listening OnInputKeydown w); [|reflexivity].
    unfold InputHandler.onKeydown.
    match goal with |- context [if ?b then _ else _] => destruct b end;
      reflexivity.
  - destruct (listening OnInputBlur w); reflexivity.
  - destruct (listening OnInputFocus w); reflexivity.
  - destruct (listening OnCanvasClick w); reflexivity.
  - destruct (listening OnWindowResize w); [|reflexivity].
    unfold ResizeHandler.onResize.
    destruct (bounceTimerToken (resizer w)); reflexivity.
  - apply (advance_preserves drawn); [apply fire_drawn|reflexivity].
Qed.

(** X11.  Between display refreshes nothing is drawn: whatever events
    arrive, draw messages included, the context, the four style fields and
    the style of the input element stay as they are until a refresh. *)
Theorem nothing_is_drawn_between_refreshes :
  forall (w : World) (es : list Event),
    no_frame es = true ->
    drawn (run w es) = drawn w.
Proof.
  intros w es. revert w. induction es as [|e es IH]; intros w Hn;
    [reflexivity|].
  cbn in Hn. apply andb_true_iff in Hn. destruct Hn as [He Hn].
  cbn [run fold_left]. fold (run (step w e) es).
  rewrite (IH (step w e) Hn). apply step_keeps_drawn, He.
Qed.

(** ** Batching is transparent *)

Lemma step_keeps_ratio w e :
  (match e with EvDevicePixelRatio _ => false | _ => true end) = true ->
  devicePixelRatio (host (step w e)) = devicePixelRatio (host w).
Proof.
  intros He.
  destruct e as [m|ev| | | | |r|q|ms| |v]; try discriminate;
    cbn [step]; try reflexivity.
  - destruct m; cbn [VimWasm.onMessage settle]; try reflexivity.
    + unfold ScreenCanvas.enqueue.
      destruct (negb (rafScheduled (screen w))); reflexivity.
    + unfold ScreenCanvas.onVimInit, InputHandler.onVimInit,
        ResizeHandler.onVimInit, addEventListener.
      repeat match goal with
             | |- context [if ?b then _ else _] => destruct b
             end; reflexivity.
  - destruct (listening OnInputKeydown w); [|reflexivity].
    unfold InputHandler.onKeydown.
    match goal with |- context [if ?b then _ else _] => destruct b end;
      reflexivity.
  - destruct (listening OnInputBlur w); reflexivity.
  - destruct (listening OnInputFocus w); reflexivity.
  - destruct (listening OnCanvasClick w); reflexivity.
  - destruct (listening OnWindowResize w); [|reflexivity].
    unfold ResizeHandler.onResize.
    destruct (bounceTimerToken (resizer w)); reflexivity.
  - apply (advance_preserves (fun w => devicePixelRatio (host w)));
      [apply fire_drawn|reflexivity].
  - apply (frame_preserves (fun w => devicePixelRatio (host w)));
      [apply apply_ratio|reflexivity|reflexivity|reflexivity].
Qed.

Lemma same_flush_start ms w1 w2 :
  drawn w1 = drawn w2 ->
  devicePixelRatio (host w1) = devicePixelRatio (host w2) ->
  same_flush (ScreenCanvas.applyQueue ms w1) (ScreenCanvas.applyQueue ms w2).
Proof. intros H Hr. apply (applyQueue_drawn_congruent ms w1 w2 H Hr). Qed.

Lemma same_flush_trans c1 c2 c3 :
  same_flush c1 c2 -> same_flush c2 c3 -> same_flush c1 c3.
Proof.
  intros [A [B C]] [A' [B' C']]. unfold same_flush.
  rewrite A, B, C. auto.
Qed.

Lemma same_flush_snoc a1 a2 d w1 w2 :
  same_flush (ScreenCanvas.applyQueue a1 w1) (ScreenCanvas.applyQueue a2 w2) ->
  same_flush (ScreenCanvas.applyQueue (a1 ++ [d]) w1)
             (ScreenCanvas.applyQueue (a2 ++ [d]) w2).
Proof.
  intros [R [D P]]. rewrite !applyQueue_app.
  destruct (ScreenCanvas.applyQueue a1 w1) as [u1|e1 u1],
           (ScreenCanvas.applyQueue a2 w2) as [u2|e2 u2];
    try discriminate; cbn [world_of] in D, P.
  - apply same_flush_start; assumption.
  - split; [reflexivity|]. auto.
Qed.

Lemma draws_app a b : draws (a ++ b) = draws a ++ draws b.
Proof. unfold draws. apply flat_map_app. Qed.

Lemma batching_inv_step b es e w :
  (match e with EvDevicePixelRatio _ => false | _ => true end) = true ->
  batching_inv b es w -> batching_inv b (es ++ [e]) (step w e).
Proof.
  intros He [Hr [Hc Hi]]. unfold batching_inv. rewrite draws_app.
  split; [rewrite (step_keeps_ratio w e He); exact Hr|].
  split; [apply step_consistent, Hc|].
  set (all := ScreenCanvas.applyQueue (draws es) (boot b)) in *.
  pose proof (step_keeps_render_queue w e) as Hq.
  assert (Hother :
            draws [e] = [] ->
            screen (step w e) = screen w
            /\ rafCallbacks (host (step w e)) = rafCallbacks (host w) ->
            drawn (step w e) = drawn w ->
            (stalled (step w e)
             /\ returns (ScreenCanvas.applyQueue (draws es ++ draws [e])
                                                 (boot b)) = false
             /\ drawn (world_of (ScreenCanvas.applyQueue
                                   (draws es ++ draws [e]) (boot b)))
                = drawn (step w e))
            \/ (rafCallbacks (host (step w e))
                = (if rafScheduled (screen (step w e)) then 1 else 0)%nat
                /\ same_flush
                     (ScreenCanvas.applyQueue (queue (screen (step w e)))
                                              (step w e))
                     (ScreenCanvas.applyQueue (draws es ++ draws [e])
                                              (boot b)))).
  { intros -> [Hs Hn] Hd. rewrite app_nil_r. fold all.
    unfold stalled. rewrite Hs, Hn, Hd.
    destruct Hi as [Hi|[Hn' Hf]]; [left; exact Hi|right].
    split; [exact Hn'|].
    eapply same_flush_trans; [|exact Hf].
    apply same_flush_start; [exact Hd|apply step_keeps_ratio, He]. }
  destruct e as [m|ev| | | | |r|q|ms| |v]; try discriminate;
    try (apply Hother; [reflexivity|exact Hq|
                        apply step_keeps_drawn; reflexivity]).
  - (* a message *)
    destruct m as [d| | | |];
      try (apply Hother; [reflexivity|exact Hq|
                          apply step_keeps_drawn; reflexivity]).
    cbn [draws flat_map app]. rewrite Hq.
    destruct (enqueue_consistent d w Hc) as [_ [S [R Q]]].
    assert (Hd : drawn (ScreenCanvas.enqueue d w) = drawn w).
    { rewrite <- Hq. apply step_keeps_drawn. reflexivity. }
    assert (Hp : devicePixelRatio (host (ScreenCanvas.enqueue d w))
                 = devicePixelRatio (host w)).
    { rewrite <- Hq. apply step_keeps_ratio. reflexivity. }
    destruct Hi as [[[Sf Sc] [Ra Da]]|[Hn Hf]].
    + left. unfold stalled. rewrite S, R, Sf, Hd, applyQueue_app.
      fold all. destruct all; [discriminate|]. auto.
    + right. rewrite S, R, Q. split.
      * destruct (rafScheduled (screen w)); [exact Hn|reflexivity].
      * eapply same_flush_trans;
          [apply same_flush_start; [exact Hd|exact Hp]|].
        apply same_flush_snoc. exact Hf.
  - (* a refresh *)
    cbn [draws flat_map]. rewrite app_nil_r. fold all. cbn [step].
    destruct Hi as [[[Sf Sc] [Ra Da]]|[Hn Hf]].
    + left. rewrite (frame_of_idle w Sc). unfold stalled. auto.
    + destruct (rafScheduled (screen w)) eqn:Sw.
      * rewrite (frame_of_scheduled w Hn), settle_onAnimationFrame.
        set (w1 := with_host (set_rafCallbacks 0) w).
        change (queue (screen w1)) with (queue (screen w)).
        assert (Hf1 : same_flush
                        (ScreenCanvas.applyQueue (queue (screen w)) w1) all).
        { eapply same_flush_trans; [|exact Hf].
          apply same_flush_start; reflexivity. }
        destruct (applyQueue_keeps_render_queue (queue (screen w)) w1)
          as [A [_ C]].
        destruct Hf1 as [R1 [D1 P1]].
        destruct (ScreenCanvas.applyQueue (queue (screen w)) w1)
          as [wf|e wf]; cbn [world_of returns] in *.
        -- right. cbn. split; [exact A|].
           split; [exact R1|]. split; [exact D1|exact P1].
        -- left. unfold stalled. cbn.
           split; [split; [rewrite C; exact Sw|exact A]|].
           split; [symmetry; exact R1|symmetry; exact D1].
      * right. rewrite (frame_of_idle w Hn), Sw. auto.
Qed.

Lemma boot_batching_inv b : batching_inv b [] (boot b).
Proof.
  unfold batching_inv. split; [reflexivity|].
  destruct (boot_consistent b) as [Hc Hs].
  split; [exact Hc|]. right. rewrite Hs.
  destruct (proj2 Hc Hs) as [Hn Hq]. rewrite Hn, Hq.
  split; [reflexivity|]. cbn. repeat split.
Qed.

Lemma run_batching_inv b es :
  no_ratio_change es = true -> batching_inv b es (run (boot b) es).
Proof.
  induction es as [|e es IH] using rev_ind; intros Hn.
  - apply boot_batching_inv.
  - unfold no_ratio_change in Hn. rewrite forallb_app in Hn.
    apply andb_true_iff in Hn. destruct Hn as [Hn He].
    cbn in He. rewrite andb_true_r in He.
    rewrite run_app. cbn [run fold_left].
    apply batching_inv_step; [exact He|apply IH, Hn].
Qed.

(** X12.  Batching neither drops nor reorders instructions.  While the
    pixel ratio does not change, what is drawn after a refresh is what the
    instructions received since page load draw when they are applied one
    after the other, in the order received and up to the first that
    throws. *)
Theorem batching_preserves_the_drawing :
  forall (b : Boot) (es : list Event),
    no_ratio_change es = true ->
    drawn (step (run (boot b) es) EvFrame)
    = drawn (apply_all (draws es) (boot b)).
Proof.
  intros b es Hn.
  assert (Hn' : no_ratio_change (es ++ [EvFrame]) = true).
  { unfold no_ratio_change in *. rewrite forallb_app, Hn. reflexivity. }
  pose proof (run_batching_inv b (es ++ [EvFrame]) Hn') as [_ [Hc Hi]].
  rewrite run_app in Hc, Hi. cbn [run fold_left] in Hc, Hi.
  rewrite draws_app in Hi. cbn [draws flat_map] in Hi.
  rewrite app_nil_r in Hi. fold (draws es) in Hi.
  set (w' := step (run (boot b) es) EvFrame) in *.
  unfold apply_all.
  destruct Hi as [[_ [_ D]]|[Hk [_ [D _]]]]; [symmetry; exact D|].
  assert (H0 : rafCallbacks (host w') = 0%nat).
  { apply (frame_consistent (run (boot b) es)).
    apply run_consistent, boot_consistent. }
  rewrite H0 in Hk.
  destruct (rafScheduled (screen w')) eqn:S; [discriminate|].
  destruct (proj2 Hc S) as [_ Q]. rewrite Q in D. exact D.
Qed.

(** X13.  The script checks [Worker], [Atomics] and [SharedArrayBuffer]
    in this order.  At the first one the window lacks it alerts the
    message naming it and throws it, with nothing posted and no listener
    or timer registered; with all three present it constructs the objects
    and sends [start]. *)
Theorem main_stops_at_first_missing_capability :
  forall (h : Host) (r : PaintOp -> Bitmap -> Bitmap) (D : bool),
    match first_missing (windowProps h) with
    | None => main h r D = Normal (VimWasm.start D (create h r))
    | Some p =>
        exists w,
          main h r D = Throw (unsupported p) w
          /\ trace (host w) = trace h ++ [(now h, Alert (unsupported p))]
          /\ posted (trace (host w)) = posted (trace h)
          /\ listeners (host w) = listeners h
          /\ timers (host w) = timers h
    end.
Proof.
  intros h r D. unfold first_missing, capabilities, main, checkCompat.
  cbn [List.find host windowProps].
  destruct (existsb (String.eqb "Worker") (windowProps h)); cbn [negb].
  - cbn [host windowProps].
    destruct (existsb (String.eqb "Atomics") (windowProps h)); cbn [negb].
    + cbn [host windowProps].
      destruct (existsb (String.eqb "SharedArrayBuffer") (windowProps h));
        cbn [negb].
      * reflexivity.
      * eexists. split; [reflexivity|]. cbn. rewrite posted_app. cbn.
        rewrite app_nil_r. auto.
    + eexists. split; [reflexivity|]. cbn. rewrite posted_app. cbn.
      rewrite app_nil_r. auto.
  - eexists. split; [reflexivity|]. cbn. rewrite posted_app. cbn.
    rewrite app_nil_r. auto.
Qed.

(** ** The pixel ratio *)
Lemma device_at_zero_ratio (v : number) (w : World) :
  (devicePixelRatio (host w) == 0)%Q -> device v w = Math_floor v.
Proof.
  intros H. unfold device, dpr, or_one.
  apply Qeq_bool_iff in H. rewrite H. apply floor_eq. ring.
Qed.

(** X14.  A pixel ratio of 0 counts as 1: a filled rectangle is then
    drawn at the floors of its logical coordinates. *)
Theorem zero_ratio_draws_at_logical_size :
  forall (x y wi h : number) (color : string) (w : World),
    (devicePixelRatio (host w) == 0)%Q ->
    painted (ctx (ScreenCanvas.drawRect x y wi h color true w))
    = painted (ctx w)
      ++ [PFillRect (Some color) (Math_floor x) (Math_floor y)
                    (Math_floor wi) (Math_floor h)].
Proof.
  intros x y wi h color w H.
  rewrite <- !(device_at_zero_ratio _ w H). reflexivity.
Qed.

(** ** Text runs *)

Lemma drawText_keeps_host_screen text ch lh cw x y bold ul uc st w :
  host (ScreenCanvas.drawText text ch lh cw x y bold ul uc st w) = host w
  /\ screen (ScreenCanvas.drawText text ch lh cw x y bold ul uc st w) = screen w.
Proof.
  unfold ScreenCanvas.drawText.
  destruct ul; [|destruct uc; [|destruct st]]; split; reflexivity.
Qed.

Lemma drawText_lineDash text ch lh cw x y bold ul uc st w :
  lineDash (ctx (ScreenCanvas.drawText text ch lh cw x y bold ul uc st w))
  = if ul then []
    else if uc then
           if 0 <=? curl_width cw w
           then [curl_width cw w; curl_width cw w]
           else lineDash (ctx w)
         else lineDash (ctx w).
Proof.
  unfold ScreenCanvas.drawText, ScreenCanvas.fillGlyphs, curl_width, scaled,
    Context2D.setLineDash.
  destruct ul; [|destruct uc; [|destruct st]];
    eval_draw;
    try match goal with
        | |- context [0 <=? ?k] => destruct (0 <=? k)
        end;
    eval_draw; rewrite ?fold_fillText; eval_draw; reflexivity.
Qed.

(** X15.  A strike-through does not set the line dash.  After a text run
    with an undercurl, the strike of the next run is stroked with the
    undercurl's dash pattern (a negative dash length is ignored, the dash
    is then the one before the undercurl); after a run with an underline
    it is solid. *)
Theorem strike_inherits_the_dash :
  forall (t1 t2 : list code_unit)
         (ch1 lh1 cw1 x1 y1 ch2 lh2 cw2 x2 y2 : number)
         (b1 b2 st1 uc1 : bool) (w : World),
    let after_curl :=
      ScreenCanvas.drawText t1 ch1 lh1 cw1 x1 y1 b1 false true st1 w in
    let after_line :=
      ScreenCanvas.drawText t1 ch1 lh1 cw1 x1 y1 b1 true uc1 st1 w in
    let strike w' :=
      ScreenCanvas.drawText t2 ch2 lh2 cw2 x2 y2 b2 false false true w' in
    let seg :=
      [SegMoveTo (device x2 w) (strike_line lh2 y2 w);
       SegLineTo (glyph_column cw2 x2 (length t2) w) (strike_line lh2 y2 w)] in
    last (painted (ctx (strike after_curl)))
    = Some (PStroke (fgColor (screen w)) (Some (1 * dpr w)%Q)
                    (if 0 <=? curl_width cw1 w
                     then [curl_width cw1 w; curl_width cw1 w]
                     else lineDash (ctx w))
                    seg)
    /\ last (painted (ctx (strike after_line)))
       = Some (PStroke (fgColor (screen w)) (Some (1 * dpr w)%Q) [] seg).
Proof.
  intros. subst strike seg.
  assert (Hgen : forall w1,
             host w1 = host w -> screen w1 = screen w ->
             last (painted (ctx (ScreenCanvas.drawText t2 ch2 lh2 cw2 x2 y2 b2
                                   false false true w1)))
             = Some (PStroke (fgColor (screen w)) (Some (1 * dpr w)%Q)
                       (lineDash (ctx w1))
                       [SegMoveTo (device x2 w) (strike_line lh2 y2 w);
                        SegLineTo (glyph_column cw2 x2 (length t2) w)
                                  (strike_line lh2 y2 w)])).
  { intros w1 Hh Hs. rewrite drawText_painted, app_assoc.
    unfold text_decoration, device, strike_line, glyph_column, scaled, dpr.
    rewrite Hh, Hs. apply last_snoc. }
  split.
  - subst after_curl.
    destruct (drawText_keeps_host_screen t1 ch1 lh1 cw1 x1 y1 b1 false true
                                         st1 w) as [Hh Hs].
    rewrite (Hgen _ Hh Hs), drawText_lineDash. reflexivity.
  - subst after_line.
    destruct (drawText_keeps_host_screen t1 ch1 lh1 cw1 x1 y1 b1 true uc1
                                         st1 w) as [Hh Hs].
    rewrite (Hgen _ Hh Hs), drawText_lineDash. reflexivity.
Qed.

(** X16.  An empty text run paints no glyph, yet it sets the font (its
    size printed in full while it is a safe integer) and the fill style;
    a requested underline is still stroked, as a segment whose two ends
    coincide. *)
Theorem empty_text_run :
  forall (ch lh cw x y : number) (bold uc st : bool) (w : World),
    let plain := ScreenCanvas.drawText [] ch lh cw x y bold false false false w in
    let lined := ScreenCanvas.drawText [] ch lh cw x y bold true uc st w in
    painted (ctx plain) = painted (ctx w)
    /\ (safe_integer (device ch w) ->
        font (ctx plain) = Some (text_font ch bold w))
    /\ fillStyle (ctx plain) = fgColor (screen w)
    /\ painted (ctx lined)
       = painted (ctx w)
         ++ [PStroke (fgColor (screen w)) (Some (1 * dpr w)%Q) []
                     [SegMoveTo (device x w) (underline_line lh y w);
                      SegLineTo (device x w) (underline_line lh y w)]].
Proof.
  intros. subst plain lined.
  split; [rewrite drawText_painted; cbn; rewrite app_nil_r; reflexivity|].
  split; [intros _; apply drawText_font|].
  split; [reflexivity|].
  rewrite drawText_painted. cbn [text_glyphs length seq map app].
  unfold text_decoration. cbn [length].
  f_equal. f_equal. f_equal. f_equal. f_equal. f_equal.
  unfold device, glyph_column, scaled. apply floor_eq.
  cbn [Z.of_nat inject_Z]. ring.
Qed.

(** ** Instructions that throw *)

(** X18.  An instruction throws exactly when it is an inversion whose
    device width or height is zero ([IndexSizeError]), or a scroll on a
    canvas with a dimension of zero ([InvalidStateError]); it then leaves
    the world as it found it.  Every other instruction returns. *)
Theorem only_degenerate_instructions_throw :
  forall (m : DrawEventMessage) (w : World),
    ScreenCanvas.apply m w
    = if degenerate m w
      then Throw match m with
                 | DInvertRect _ _ _ _ => "IndexSizeError"
                 | _ => "InvalidStateError"
                 end w
      else Normal (world_of (ScreenCanvas.apply m w)).
Proof.
  intros m w.
  destruct m as [n|n|n|n s|x y wi h c f|t ch lh cw x y b u uc st
                 |x y wi h|x sy dy wi h];
    cbn [ScreenCanvas.apply degenerate world_of]; try reflexivity.
  - unfold ScreenCanvas.invertRect, Context2D.getImageData.
    fold (device wi w) (device h w).
    destruct ((device wi w =? 0) || (device h w =? 0)); reflexivity.
  - unfold ScreenCanvas.imageScroll, Context2D.drawImage.
    destruct ((canvas_width (ctx w) =? 0) || (canvas_height (ctx w) =? 0));
      reflexivity.
Qed.

Lemma stalled_step w e :
  stalled w ->
  stalled (step w e)
  /\ ctx (step w e) = ctx w
  /\ queue (screen (step w e)) = queue (screen w) ++ draws [e].
Proof.
  intros [Hs Hc].
  assert (Hx : drawn (step w e) = drawn w -> ctx (step w e) = ctx w).
  { intros H. unfold drawn in H. injection H as H _ _ _ _ _. exact H. }
  assert (Hother :
            (match e with EvFrame => false | _ => true end) = true ->
            draws [e] = [] ->
            screen (step w e) = screen w
            /\ rafCallbacks (host (step w e)) = rafCallbacks (host w) ->
            stalled (step w e)
            /\ ctx (step w e) = ctx w
            /\ queue (screen (step w e)) = queue (screen w) ++ draws [e]).
  { intros He -> [Hq1 Hq2]. unfold stalled. rewrite Hq1, Hq2, app_nil_r.
    split; [split; assumption|].
    split; [apply Hx, step_keeps_drawn, He|reflexivity]. }
  pose proof (step_keeps_render_queue w e) as Hq.
  destruct e as [m|ev| | | | |r|q|ms| |v];
    try (apply Hother; [reflexivity|reflexivity|exact Hq]).
  - destruct m as [d| | | |];
      try (apply Hother; [reflexivity|reflexivity|exact Hq]).
    split; [|split; [apply Hx, step_keeps_drawn; reflexivity|]];
      rewrite Hq; unfold stalled, ScreenCanvas.enqueue; rewrite Hs; cbn; auto.
  - cbn [step draws flat_map app]. rewrite (frame_of_idle w Hc), app_nil_r.
    unfold stalled. auto.
Qed.

(** X19.  A flush that is left by an exception stalls the renderer for
    good: the refresh leaves the queue and the flag as they were and no
    callback registered, and whatever happens next the flag stays set, no
    callback is registered, the queue only grows and the context is never
    touched again. *)
Theorem flush_exception_stalls_the_renderer :
  forall (w : World) (es : list Event),
    rafCallbacks (host w) = 1%nat ->
    rafScheduled (screen w) = true ->
    returns (ScreenCanvas.applyQueue (queue (screen w))
                                     (with_host (set_rafCallbacks 0) w))
    = false ->
    let w1 := step w EvFrame in
    let w2 := run w1 es in
    queue (screen w1) = queue (screen w)
    /\ stalled w2
    /\ queue (screen w2) = queue (screen w) ++ draws es
    /\ ctx w2 = ctx w1.
Proof.
  intros w es Hc Hs Hr w1 w2.
  assert (H1 : stalled w1 /\ queue (screen w1) = queue (screen w)).
  { subst w1. cbn [step].
    rewrite (frame_of_scheduled w Hc), settle_onAnimationFrame.
    set (w0 := with_host (set_rafCallbacks 0) w) in *.
    change (queue (screen w0)) with (queue (screen w)).
    destruct (applyQueue_keeps_render_queue (queue (screen w)) w0)
      as [A [B C]].
    destruct (ScreenCanvas.applyQueue (queue (screen w)) w0) as [wf|e wf];
      [discriminate|].
    cbn [world_of] in A, B, C. unfold stalled. cbn.
    rewrite A, B, C. auto. }
  destruct H1 as [St Q1]. split; [exact Q1|]. rewrite <- Q1.
  subst w2. clearbody w1. clear Q1.
  revert w1 St. induction es as [|e es IH]; intros w1 St.
  - cbn. rewrite app_nil_r. auto.
  - cbn [run fold_left]. fold (run (step w1 e) es).
    destruct (stalled_step w1 e St) as [St' [C' Q']].
    destruct (IH (step w1 e) St') as [A [B C]].
    rewrite B, C, Q', C', <- app_assoc.
    change (e :: es) with ([e] ++ es). rewrite draws_app. auto.
Qed.

(** ** The inversion loop on arrays *)

Section InversionArray.

Local Open Scope nat_scope.

Lemma invertLoop_length fuel :
  forall len i (data : list Z),
    length (ScreenCanvas.invertLoop fuel len i data) = length data.
Proof.
  induction fuel as [|fuel IH]; intros len i data; [reflexivity|].
  cbn [ScreenCanvas.invertLoop]. destruct (i <? len); [|reflexivity].
  rewrite IH, !complementAt_length. reflexivity.
Qed.

Lemma invert_channel_twice r v :
  byte_ok v -> invert_channel r (invert_channel r v) = v.
Proof.
  unfold byte_ok, invert_channel, clamp8. destruct (r =? 3); lia.
Qed.

(** X17.  On an array of bytes of any length the inversion loop keeps the
    length, leaves every fourth byte (alpha) as it is, and applied twice
    gives the array back. *)
Theorem invertData_is_an_involution_on_bytes :
  forall data : list Z,
    Forall byte_ok data ->
    length (ScreenCanvas.invertData data) = length data
    /\ (forall q, ScreenCanvas.invertData data !! (4 * q + 3)
                  = data !! (4 * q + 3))
    /\ ScreenCanvas.invertData (ScreenCanvas.invertData data) = data.
Proof.
  intros data Hok. split; [apply invertLoop_length|]. split.
  - intros q. rewrite invertData_lookup by lia.
    destruct (data !! (4 * q + 3)); reflexivity.
  - apply list_eq. intros i.
    assert (Hi : i = 4 * (i / 4) + i mod 4) by apply Nat.div_mod_eq.
    assert (Hr : i mod 4 < 4) by (apply Nat.mod_upper_bound; lia).
    rewrite Hi. rewrite !invertData_lookup by exact Hr.
    destruct (data !! (4 * (i / 4) + i mod 4)) as [v|] eqn:E; [|reflexivity].
    cbn. f_equal. apply invert_channel_twice.
    eapply Forall_lookup_1; eassumption.
Qed.

End InversionArray.

(** ** Instances *)

Lemma exit_undoes_started_witness :
  listening OnWindowResize sample_world = false
  /\ listening OnInputKeydown sample_world = false
  /\ listening OnInputBlur sample_world = false
  /\ listening OnInputFocus sample_world = false
  /\ step (step sample_world (EvMessage MStarted)) (EvMessage MExit)
     = sample_world.
Proof.
  assert (R : listening OnWindowResize sample_world = false) by reflexivity.
  assert (K : listening OnInputKeydown sample_world = false) by reflexivity.
  assert (B : listening OnInputBlur sample_world = false) by reflexivity.
  assert (F : listening OnInputFocus sample_world = false) by reflexivity.
  repeat (split; [assumption|]).
  exact (exit_undoes_started sample_world R K B F).
Defined.

Lemma nothing_forwarded_while_inactive_witness :
  inactive sample_world
  /\ no_started idle_events = true
  /\ posted (trace (host (run sample_world idle_events)))
     = posted (trace (host sample_world)).
Proof.
  assert (Hi : inactive sample_world) by (repeat split; reflexivity).
  assert (Hn : no_started idle_events = true) by reflexivity.
  split; [exact Hi|]. split; [exact Hn|].
  exact (proj1 (proj2 (nothing_forwarded_while_inactive
                         sample_world idle_events Hi Hn))).
Defined.

Lemma nothing_is_drawn_between_refreshes_witness :
  no_frame idle_events = true
  /\ drawn (run sample_session idle_events) = drawn sample_session.
Proof.
  assert (Hn : no_frame idle_events = true) by reflexivity.
  split; [exact Hn|].
  exact (nothing_is_drawn_between_refreshes sample_session idle_events Hn).
Defined.

Lemma batching_preserves_the_drawing_witness :
  no_ratio_change busy_events = true
  /\ drawn (step (run (boot sample_boot) busy_events) EvFrame)
     = drawn (apply_all (draws busy_events) (boot sample_boot)).
Proof.
  assert (Hn : no_ratio_change busy_events = true) by reflexivity.
  split; [exact Hn|].
  exact (batching_preserves_the_drawing sample_boot busy_events Hn).
Defined.

Lemma empty_text_run_witness :
  safe_integer (device 10 sample_world)
  /\ font (ctx (ScreenCanvas.drawText [] 10 12 6 0 0 true false false false
                                      sample_world))
     = Some "bold 15px undefined".
Proof.
  assert (Hs : safe_integer (device 10 sample_world)).
  { vm_compute. reflexivity. }
  split; [exact Hs|].
  destruct (empty_text_run 10 12 6 0 0 true false false sample_world)
    as [_ [Hf _]].
  rewrite (Hf Hs). reflexivity.
Defined.

Lemma flush_exception_stalls_the_renderer_witness :
  let w := run sample_world
               [EvFrame;
                EvMessage (MDraw (DInvertRect 0 0 (1 # 2) (1 # 2)));
                EvMessage (MDraw (DDrawRect 0 0 2 2 "#000" true))] in
  let es := [EvMessage (MDraw (DDrawRect 0 0 4 4 "#fff" true)); EvFrame] in
  rafCallbacks (host w) = 1%nat
  /\ rafScheduled (screen w) = true
  /\ returns (ScreenCanvas.applyQueue (queue (screen w))
                                      (with_host (set_rafCallbacks 0) w))
     = false
  /\ length (queue (screen (run (step w EvFrame) es))) = 3%nat
  /\ painted (ctx (run (step w EvFrame) es)) = [].
Proof.
  intros w es.
  assert (Hc : rafCallbacks (host w) = 1%nat) by reflexivity.
  assert (Hs : rafScheduled (screen w) = true) by reflexivity.
  assert (Hr : returns (ScreenCanvas.applyQueue
                          (queue (screen w))
                          (with_host (set_rafCallbacks 0) w)) = false)
    by reflexivity.
  destruct (flush_exception_stalls_the_renderer w es Hc Hs Hr)
    as [_ [_ [Q C]]].
  split; [exact Hc|]. split; [exact Hs|]. split; [exact Hr|].
  split; [rewrite Q; reflexivity|rewrite C; reflexivity].
Defined.

Lemma zero_ratio_draws_at_logical_size_witness :
  (devicePixelRatio (host zero_ratio_world) == 0)%Q
  /\ painted (ctx (ScreenCanvas.drawRect (5 # 2) (7 # 2) 10 10 "#000" true
                                         zero_ratio_world))
     = painted (ctx zero_ratio_world)
       ++ [PFillRect (Some "#000") (Math_floor (5 # 2)) (Math_floor (7 # 2))
                     (Math_floor 10) (Math_floor 10)].
Proof.
  assert (H : (devicePixelRatio (host zero_ratio_world) == 0)%Q)
    by reflexivity.
  split; [exact H|].
  exact (zero_ratio_draws_at_logical_size (5 # 2) (7 # 2) 10 10 "#000"
                                          zero_ratio_world H).
Defined.

Lemma invertData_is_an_involution_on_bytes_witness :
  Forall byte_ok [10; 20; 30; 255; 7]
  /\ ScreenCanvas.invertData (ScreenCanvas.invertData [10; 20; 30; 255; 7])
     = [10; 20; 30; 255; 7].
Proof.
  assert (H : Forall byte_ok [10; 20; 30; 255; 7]).
  { repeat constructor; unfold byte_ok; lia. }
  split; [exact H|].
  exact (proj2 (proj2 (invertData_is_an_involution_on_bytes _ H))).
Defined.
